(** * Bucket trie: a burst-trie multiset of 16-bit unsigned integers

    Shallow embedding of [trie.c] / [trie.h] and verification of its
    addressing scheme, node invariants, burst transformation and ordered
    enumeration.

    Modelling conventions
    - [uint16_t] and [uint64_t] values are [Z], with the wrap-around written
      out where the code can overflow ([u16], [u64]); the depth ([uint8_t],
      always in 0..5) and array indices are [nat].
    - A [Node_t] is a 64-byte union without a tag.  The embedding keeps the
      shape a block currently has ([DataNode], [TravelNode], [CountNode])
      next to its contents, and [data_slot0] recomputes what the code reads
      through [((DataNode_t* )nodep)->data[0]] on a little-endian target, so
      that [trie__determine_node_type] is the code's own test on depth and
      content.  Where the code would go on to read a block through a view
      that is not its shape, the embedding stops with [UnexpectedNodeType];
      the soundness of the classification shows that no reachable state
      gets there.
    - The heap is a forest: every child block is owned by exactly one link of
      one travel node, so a travel node carries its eight children directly,
      together with the address of the slab that holds them.  An update in
      place of a block becomes the rebuilt path from the root to the block.
    - [aligned_alloc] is the C library's; the address returned by its n-th
      call is a parameter of the development ([0] is [NULL]), and the number
      of calls made so far is threaded through the operations.
    - Assertions are enabled.  A failed assertion, or an access outside an
      array, ends the run: operations return a [result].
    - The recursive walks are bounded by the depth of the trie; the bound is
      an explicit fuel that the entry points set from the depth. *)

From Stdlib Require Import String Ascii DecimalString.
From Stdlib Require Import ZArith List Lia Bool Permutation Sorted.
Import ListNotations.
Open Scope Z_scope.

(** ** Outcomes *)

Inductive fault : Type :=
| AllocationFailed      (* assert(!"... allocation failed") *)
| CounterCeiling        (* assert( *bucket != USHRT_MAX) *)
| FirstSlotReached      (* assert(current_elemp != &data[0]) *)
| UnexpectedNodeType    (* a block read through a view it does not have *)
| OutOfBounds           (* a scan that leaves the 32-slot array *)
| OutOfFuel.            (* recursion deeper than the trie can be *)

Inductive result (A : Type) : Type :=
| Done (a : A)
| Abort (f : fault).
Arguments Done {A} a.
Arguments Abort {A} f.

Definition bind {A B : Type} (r : result A) (k : A -> result B) : result B :=
  match r with
  | Done a => k a
  | Abort f => Abort f
  end.

Notation "x <- c ;; k" := (bind c (fun x => k))
  (at level 61, c at next level, right associativity).

(** ** Constants and the addressing macro *)

Definition MASK_N_BITS : Z := 3.

Definition shift_amount : list Z := [13; 10; 7; 4; 1; 0].
Definition GEN_SHIFT (depth : nat) : Z := nth depth shift_amount 0.

Definition mask_array : list Z :=
  [ 0xE000    (* 0b1110000000000000 *)
  ; 0x1C00    (* 0b0001110000000000 *)
  ; 0x0380    (* 0b0000001110000000 *)
  ; 0x0070    (* 0b0000000001110000 *)
  ; 0x000E    (* 0b0000000000001110 *)
  ; 0x0001 ]. (* 0b0000000000000001 *)
Definition GEN_MASK (depth : nat) : Z := nth depth mask_array 0.

Definition IDX_FROM_VALUE (val : Z) (depth : nat) : Z :=
  Z.shiftr (Z.land val (GEN_MASK depth)) (GEN_SHIFT depth).

Definition TRIE_MAX_DEPTH : nat := 5.
Definition USHRT_MAX : Z := 65535.

Definition u16 (x : Z) : Z := x mod 2 ^ 16.
Definition u64 (x : Z) : Z := x mod 2 ^ 64.

Definition TAG_PTR (ptr : Z) : Z := Z.lor ptr 1.
Definition UNTAG_PTR (ptr : Z) : Z := Z.land ptr (2 ^ 64 - 2).

(** Array write [l[i] = x]; the code never writes outside an array. *)
Fixpoint store {A : Type} (l : list A) (i : nat) (x : A) : list A :=
  match l, i with
  | [], _ => []
  | _ :: t, O => x :: t
  | h :: t, S j => h :: store t j x
  end.

Definition memmove_down (data : list Z) (n : nat) : list Z :=
  (* memmove(&data[0], &data[1], n * sizeof(uint16_t)) *)
  firstn n (skipn 1 data) ++ skipn n data.

(** ** Nodes and their tagless classification *)

Definition CACHE_LINE_SIZE : Z := 64.

#[warnings="-register-all"]
Inductive Node : Type :=
| DataNode (data : list Z)                 (* uint16_t data[32] *)
| TravelNode (slab : Z) (link : list Node) (* struct sNode* link[8], all into one slab *)
| CountNode (count : list Z).              (* uint64_t count[8] *)

Record sTrie : Type := mkTrie { base_node : Node; number_of_zeros : Z }.

Definition zero_block : Node := DataNode (repeat 0 32).

(** The pointer stored in [link[i]]: [TAG_PTR(&all_new_nodesp[i])]. *)
Definition link_ptr (slab : Z) (i : nat) : Z :=
  TAG_PTR (slab + CACHE_LINE_SIZE * Z.of_nat i).

(** [((DataNode_t* )nodep)->data[0]]: the first two bytes of the block, which
    are the low half-word of [link[0]] or of [count[0]] in the other views. *)
Definition data_slot0 (nodep : Node) : Z :=
  match nodep with
  | DataNode data => nth 0 data 0
  | TravelNode slab _ => u16 (link_ptr slab 0)
  | CountNode count => u16 (nth 0 count 0)
  end.

Inductive NodeType_t : Type :=
| NODE_TYPE_NONE
| NODE_TYPE_DATA
| NODE_TYPE_TRAVEL
| NODE_TYPE_COUNT.

Definition trie__determine_node_type (nodep : Node) (current_depth : nat)
  : NodeType_t :=
  if Nat.eqb current_depth TRIE_MAX_DEPTH then NODE_TYPE_COUNT
  else if data_slot0 nodep =? 0 then NODE_TYPE_DATA else NODE_TYPE_TRAVEL.

Definition trie__data_node_is_full (data : list Z) : bool :=
  if nth 0 data 0 =? 0 then false else true.

(** Index of the bucket whose address the C function returns. *)
Definition trie__get_count_node_bucket (value : Z) : nat :=
  Z.to_nat (IDX_FROM_VALUE value TRIE_MAX_DEPTH).

Definition trie__follow_travel_node (link : list Node) (depth : nat) (value : Z)
  : Node :=
  nth (Z.to_nat (IDX_FROM_VALUE value depth)) link zero_block.

(** ** Sorted placement in a data node ([trie_insert_value], lines 262-276) *)

Fixpoint insert_scan (data : list Z) (value : Z) (current_elemp : nat)
  : result nat :=
  if negb (nth current_elemp data 0 =? 0) && (nth current_elemp data 0 <? value)
  then match current_elemp with
       | O => Abort FirstSlotReached
       | S e => insert_scan data value e
       end
  else Done current_elemp.

Definition data_node_insert (data : list Z) (value : Z) : result (list Z) :=
  e <- insert_scan data value 31 ;;
  if nth e data 0 =? 0
  then Done (store data e value)
  else Done (store (memmove_down data e) e value).

(** ** Redistribution loops of the burst *)

Definition burst_count_step (current_depth : nat) (new_nodes : list (list Z))
  (elem : Z) : list (list Z) :=
  let i := Z.to_nat (IDX_FROM_VALUE elem current_depth) in
  let b := trie__get_count_node_bucket elem in
  let count := nth i new_nodes [] in
  store new_nodes i (store count b (u64 (nth b count 0 + 1))).

Fixpoint burst_count_loop (data : list Z) (current_depth current_elemp : nat)
  (new_nodes : list (list Z)) : list (list Z) :=
  let new_nodes' :=
    burst_count_step current_depth new_nodes (nth current_elemp data 0) in
  match current_elemp with
  | O => new_nodes'
  | S e => burst_count_loop data current_depth e new_nodes'
  end.

Fixpoint burst_scan (child : list Z) (elem : Z) (elem_to_insert_atp : nat)
  : result nat :=
  if negb (nth elem_to_insert_atp child 0 =? 0)
     && (nth elem_to_insert_atp child 0 <=? elem)
  then match elem_to_insert_atp with
       | O => Abort OutOfBounds
       | S e => burst_scan child elem e
       end
  else Done elem_to_insert_atp.

(** The slab under construction and [node_to_burst] (an index into it). *)
Definition burst_state : Type := (list (list Z) * option nat)%type.

Definition burst_data_step (current_depth : nat) (st : burst_state) (elem : Z)
  : result burst_state :=
  let i := Z.to_nat (IDX_FROM_VALUE elem current_depth) in
  let child := nth i (fst st) [] in
  e <- burst_scan child elem 31 ;;
  Done (store (fst st) i (store child e elem),
        if Nat.eqb e 0 then Some i else snd st).

Fixpoint burst_data_loop (data : list Z) (current_depth current_elemp : nat)
  (st : burst_state) : result burst_state :=
  st' <- burst_data_step current_depth st (nth current_elemp data 0) ;;
  match current_elemp with
  | O => Done st'
  | S e => burst_data_loop data current_depth e st'
  end.

Section Trie.

(** Address returned by the n-th call of [aligned_alloc]; [0] is [NULL]. *)
Variable aligned_alloc : nat -> Z.

(** ** Bursting a full data node *)

Fixpoint burst_rec (fuel : nat) (nodep : list Z) (current_depth heap : nat)
  : result (Node * nat) :=
  match fuel with
  | O => Abort OutOfFuel
  | S fuel' =>
    let all_new_nodesp := aligned_alloc heap in
    if all_new_nodesp =? 0 then Abort AllocationFailed
    else if Nat.eqb current_depth (TRIE_MAX_DEPTH - 1) then
      let new_nodes :=
        burst_count_loop nodep current_depth 31 (repeat (repeat 0 8) 8) in
      Done (TravelNode all_new_nodesp (map CountNode new_nodes), S heap)
    else
      st <- burst_data_loop nodep current_depth 31
              (repeat (repeat 0 32) 8, None) ;;
      match snd st with
      | None => Done (TravelNode all_new_nodesp (map DataNode (fst st)), S heap)
      | Some i =>
        r <- burst_rec fuel' (nth i (fst st) []) (S current_depth) (S heap) ;;
        Done (TravelNode all_new_nodesp
                (store (map DataNode (fst st)) i (fst r)), snd r)
      end
  end.

(** A burst started at [current_depth] recurses at most down to depth 4. *)
Definition trie__burst_data_node (nodep : list Z) (current_depth heap : nat)
  : result (Node * nat) :=
  burst_rec (TRIE_MAX_DEPTH - current_depth) nodep current_depth heap.

(** ** Insertion *)

Fixpoint insert_rec (fuel : nat) (current_node : Node) (current_depth : nat)
  (value : Z) (heap : nat) : result (Node * nat) :=
  match fuel with
  | O => Abort OutOfFuel
  | S fuel' =>
    match trie__determine_node_type current_node current_depth with
    | NODE_TYPE_TRAVEL =>
      match current_node with
      | TravelNode slab link =>
        r <- insert_rec fuel' (trie__follow_travel_node link current_depth value)
               (S current_depth) value heap ;;
        Done (TravelNode slab
                (store link (Z.to_nat (IDX_FROM_VALUE value current_depth))
                   (fst r)), snd r)
      | _ => Abort UnexpectedNodeType
      end
    | NODE_TYPE_COUNT =>
      match current_node with
      | CountNode count =>
        let b := trie__get_count_node_bucket value in
        if nth b count 0 =? USHRT_MAX then Abort CounterCeiling
        else Done (CountNode (store count b (u64 (nth b count 0 + 1))), heap)
      | _ => Abort UnexpectedNodeType
      end
    | _ =>
      match current_node with
      | DataNode data =>
        data' <- data_node_insert data value ;;
        if trie__data_node_is_full data'
        then trie__burst_data_node data' current_depth heap
        else Done (DataNode data', heap)
      | _ => Abort UnexpectedNodeType
      end
    end
  end.

Definition trie_init (heap : nat) : result (sTrie * nat) :=
  if aligned_alloc heap =? 0 then Abort AllocationFailed
  else Done (mkTrie zero_block 0, S heap).

Definition trie_insert_value (trie_ctxp : sTrie) (value : Z) (heap : nat)
  : result (sTrie * nat) :=
  if value =? 0
  then Done (mkTrie (base_node trie_ctxp)
               (u64 (number_of_zeros trie_ctxp + 1)), heap)
  else
    r <- insert_rec (S TRIE_MAX_DEPTH) (base_node trie_ctxp) 0 value heap ;;
    Done (mkTrie (fst r) (number_of_zeros trie_ctxp), snd r).

End Trie.

(** ** Enumeration

    The output stream is modelled by the sequence of numbers printed.  Every
    number is written with the format ["%u "]; the zeros of the root counter
    are written with the literal ["0 "], which is the same text. *)

Definition trie__print_count_node (count : list Z) (value : Z) : list Z :=
  repeat value (Z.to_nat (nth (trie__get_count_node_bucket value) count 0)).

Fixpoint print_data_loop (data : list Z) (current_elemp : nat) : list Z :=
  if nth current_elemp data 0 =? 0 then []
  else nth current_elemp data 0 ::
       match current_elemp with
       | O => []
       | S e => print_data_loop data e
       end.

Definition trie__print_data_node (data : list Z) : list Z :=
  print_data_loop data 31.

(** [value + ((uint16_t)slice >> (depth*MASK_N_BITS))], passed as [uint16_t]. *)
Definition child_value (value slice : Z) (depth : nat) : Z :=
  u16 (value + Z.shiftr slice (Z.of_nat depth * MASK_N_BITS)).

Fixpoint print_rec (fuel : nat) (nodep : Node) (value : Z) (depth : nat)
  : result (list Z) :=
  match fuel with
  | O => Abort OutOfFuel
  | S fuel' =>
    match trie__determine_node_type nodep depth with
    | NODE_TYPE_COUNT =>
      match nodep with
      | CountNode count =>
        Done (trie__print_count_node count value
              ++ trie__print_count_node count (u16 (value + 1)))
      | _ => Abort UnexpectedNodeType
      end
    | NODE_TYPE_DATA =>
      match nodep with
      | DataNode data => Done (trie__print_data_node data)
      | _ => Abort UnexpectedNodeType
      end
    | NODE_TYPE_TRAVEL =>
      match nodep with
      | TravelNode _ link =>
        let sub i slice :=
          print_rec fuel' (nth i link zero_block)
            (child_value value slice depth) (S depth) in
        o0 <- sub 0%nat 0x0000 ;;
        o1 <- sub 1%nat 0x2000 ;;
        o2 <- sub 2%nat 0x4000 ;;
        o3 <- sub 3%nat 0x6000 ;;
        o4 <- sub 4%nat 0x8000 ;;
        o5 <- sub 5%nat 0xA000 ;;
        o6 <- sub 6%nat 0xC000 ;;
        o7 <- sub 7%nat 0xE000 ;;
        Done (o0 ++ o1 ++ o2 ++ o3 ++ o4 ++ o5 ++ o6 ++ o7)
      | _ => Abort UnexpectedNodeType
      end
    | NODE_TYPE_NONE => Abort UnexpectedNodeType
    end
  end.

Definition trie__print_subtrie (nodep : Node) (value : Z) (depth : nat)
  : result (list Z) :=
  print_rec (S TRIE_MAX_DEPTH - depth) nodep value depth.

Definition trie_print_values (triep : sTrie) : result (list Z) :=
  o <- trie__print_subtrie (base_node triep) 0 0 ;;
  Done (repeat 0 (Z.to_nat (number_of_zeros triep)) ++ o).

(** ** Release

    The addresses handed to [free] by the recursive walk, in order; the root
    block and the container handle, whose addresses the embedding does not
    keep, are released after it by [trie_free]. *)

Fixpoint free_rec (fuel : nat) (nodep : Node) (depth : nat) : result (list Z) :=
  match fuel with
  | O => Abort OutOfFuel
  | S fuel' =>
    match trie__determine_node_type nodep depth with
    | NODE_TYPE_DATA | NODE_TYPE_COUNT => Done []
    | NODE_TYPE_TRAVEL =>
      match nodep with
      | TravelNode slab link =>
        let sub i := free_rec fuel' (nth i link zero_block) (S depth) in
        f7 <- sub 7%nat ;;
        f6 <- sub 6%nat ;;
        f5 <- sub 5%nat ;;
        f4 <- sub 4%nat ;;
        f3 <- sub 3%nat ;;
        f2 <- sub 2%nat ;;
        f1 <- sub 1%nat ;;
        f0 <- sub 0%nat ;;
        Done (f7 ++ f6 ++ f5 ++ f4 ++ f3 ++ f2 ++ f1 ++ f0
              ++ [UNTAG_PTR (link_ptr slab 0)])
      | _ => Abort UnexpectedNodeType
      end
    | NODE_TYPE_NONE => Abort UnexpectedNodeType
    end
  end.

Definition trie__free_subtrie (nodep : Node) (depth : nat) : result (list Z) :=
  free_rec (S TRIE_MAX_DEPTH - depth) nodep depth.

Definition trie_free (triep : sTrie) : result (list Z) :=
  trie__free_subtrie (base_node triep) 0.

(** Text written to the stream: each number in decimal, then one space. *)
Definition fprintf_u (v : Z) : string :=
  (NilZero.string_of_uint (N.to_uint (Z.to_N v)) ++ " ")%string.

Definition stream_text (printed : list Z) : string :=
  String.concat EmptyString (map fprintf_u printed).

(** Numbers printed by an enumeration that ran to its end. *)
Definition printed (r : result (list Z)) : list Z :=
  match r with
  | Done l => l
  | Abort _ => []
  end.

Definition subtrie_values (nodep : Node) (value : Z) (depth : nat) : list Z :=
  printed (trie__print_subtrie nodep value depth).

(** ** The test oracle ([trie.proptest.c]): a 65536-slot count array

    [oracle_print] writes slot index [i] as often as the slot counts, with
    the format ["%d "], which gives the text of ["%u "] on 0..65535. *)

Definition oracle_init : list Z := repeat 0 (Z.to_nat (USHRT_MAX + 1)).

Definition oracle_insert (array : list Z) (value : Z) : list Z :=
  store array (Z.to_nat value) (u64 (nth (Z.to_nat value) array 0 + 1)).

Definition oracle_print (array : list Z) : list Z :=
  flat_map (fun i => repeat (Z.of_nat i) (Z.to_nat (nth i array 0)))
    (seq 0 (Z.to_nat (USHRT_MAX + 1))).

Definition oracle_run (values : list Z) : list Z :=
  oracle_print (fold_left oracle_insert values oracle_init).

(** ** Runs of the public interface *)

Section Runs.

Variable aligned_alloc : nat -> Z.

Fixpoint insert_all (values : list Z) (triep : sTrie) (heap : nat)
  : result (sTrie * nat) :=
  match values with
  | [] => Done (triep, heap)
  | v :: rest =>
    s <- trie_insert_value aligned_alloc triep v heap ;;
    insert_all rest (fst s) (snd s)
  end.

(** [trie_init], the insertions in order, then [trie_print_values]. *)
Definition enumerate_after (values : list Z) (heap : nat) : result (list Z) :=
  s0 <- trie_init aligned_alloc heap ;;
  s <- insert_all values (fst s0) (snd s0) ;;
  trie_print_values (fst s).

(** States a client can bring about through the public functions. *)
Inductive reachable : sTrie * nat -> Prop :=
| reachable_init heap s :
    trie_init aligned_alloc heap = Done s -> reachable s
| reachable_insert s value s' :
    reachable s -> 0 <= value < 65536 ->
    trie_insert_value aligned_alloc (fst s) value (snd s) = Done s' ->
    reachable s'.

(** The burst as the specification words its recursion: the overfull child
    is burst "at depth+2". *)
Fixpoint burst_rec_as_specified (fuel : nat) (nodep : list Z)
  (current_depth heap : nat) : result (Node * nat) :=
  match fuel with
  | O => Abort OutOfFuel
  | S fuel' =>
    let all_new_nodesp := aligned_alloc heap in
    if all_new_nodesp =? 0 then Abort AllocationFailed
    else if Nat.eqb current_depth (TRIE_MAX_DEPTH - 1) then
      let new_nodes :=
        burst_count_loop nodep current_depth 31 (repeat (repeat 0 8) 8) in
      Done (TravelNode all_new_nodesp (map CountNode new_nodes), S heap)
    else
      st <- burst_data_loop nodep current_depth 31
              (repeat (repeat 0 32) 8, None) ;;
      match snd st with
      | None => Done (TravelNode all_new_nodesp (map DataNode (fst st)), S heap)
      | Some i =>
        r <- burst_rec_as_specified fuel' (nth i (fst st) [])
               (S (S current_depth)) (S heap) ;;
        Done (TravelNode all_new_nodesp
                (store (map DataNode (fst st)) i (fst r)), snd r)
      end
  end.

End Runs.

(** ** Vocabulary of the invariants *)

(** Width of the key interval below a node at [depth]. *)
Definition span (depth : nat) : Z := 2 ^ (16 - 3 * Z.of_nat depth).

(** [p] is the accumulated value of a path of length [depth]. *)
Definition prefix_ok (depth : nat) (p : Z) : Prop :=
  0 <= p /\ p mod span depth = 0 /\ p + span depth <= 65536.

Definition in_span (depth : nat) (p v : Z) : Prop := p <= v < p + span depth.

(** A 32-slot array whose empty slots come first and whose occupied slots
    [occ] follow, largest value first. *)
Definition sparse (data occ : list Z) : Prop :=
  data = repeat 0 (32 - length occ) ++ occ /\
  (length occ <= 32)%nat /\
  Forall (fun x => 0 < x < 65536) occ /\
  StronglySorted Z.ge occ.

(** A full data node as the burst receives it. *)
Definition burstable (depth : nat) (p : Z) (data : list Z) : Prop :=
  length data = 32%nat /\
  Forall (fun x => 0 < x < 65536) data /\
  StronglySorted Z.ge data /\
  Forall (in_span depth p) data.

(** Shape a block really has. *)
Definition shape (nodep : Node) : NodeType_t :=
  match nodep with
  | DataNode _ => NODE_TYPE_DATA
  | TravelNode _ _ => NODE_TYPE_TRAVEL
  | CountNode _ => NODE_TYPE_COUNT
  end.

(** [subnode d n d' n']: block [n'] sits at depth [d'] below block [n] of
    depth [d], following links. *)
Inductive subnode : nat -> Node -> nat -> Node -> Prop :=
| subnode_here d n : subnode d n d n
| subnode_link d slab link i d' n' :
    (i < length link)%nat ->
    subnode (S d) (nth i link zero_block) d' n' ->
    subnode d (TravelNode slab link) d' n'.

(** Structural invariant of the subtrie below a path with prefix [p]. *)
Inductive wf : nat -> Z -> Node -> Prop :=
| wf_data d p data occ :
    (d < TRIE_MAX_DEPTH)%nat ->
    sparse data occ -> (length occ < 32)%nat ->
    Forall (in_span d p) occ ->
    wf d p (DataNode data)
| wf_travel d p slab link :
    (d < TRIE_MAX_DEPTH)%nat ->
    length link = 8%nat ->
    (forall i, (i < 8)%nat ->
       wf (S d) (p + Z.of_nat i * span (S d)) (nth i link zero_block)) ->
    wf d p (TravelNode slab link)
| wf_count p count :
    length count = 8%nat ->
    (forall b, 0 <= nth b count 0 <= USHRT_MAX) ->
    (forall b, (2 <= b)%nat -> nth b count 0 = 0) ->
    wf TRIE_MAX_DEPTH p (CountNode count).

(** Redistribution of a list of values in the order given. *)
Fixpoint redistribute (current_depth : nat) (values : list Z) (st : burst_state)
  : result burst_state :=
  match values with
  | [] => Done st
  | v :: rest =>
    st' <- burst_data_step current_depth st v ;;
    redistribute current_depth rest st'
  end.

Definition empty_slab : burst_state := (repeat (repeat 0 32) 8, None).

(** Values of a list that the addressing function sends to child [i]. *)
Definition routed (depth i : nat) (values : list Z) : list Z :=
  filter (fun v => Nat.eqb (Z.to_nat (IDX_FROM_VALUE v depth)) i) values.

(** State of the redistribution after the values [done], smallest first:
    child [i] holds the values routed to it, right-justified, largest first,
    and [node_to_burst] is set exactly when a child holds 32 values. *)
Definition slab_inv (depth : nat) (done : list Z) (st : burst_state) : Prop :=
  length (fst st) = 8%nat /\
  (forall i, (i < 8)%nat ->
     nth i (fst st) [] =
     repeat 0 (32 - length (routed depth i done)) ++ rev (routed depth i done)) /\
  (forall i, snd st = Some i ->
     (i < 8)%nat /\ length (routed depth i done) = 32%nat) /\
  (snd st = None -> forall i, (length (routed depth i done) < 32)%nat).

(** Accumulated value handed to child [i] of a travel node. *)
Definition child_prefix (depth : nat) (p : Z) (i : nat) : Z :=
  p + Z.of_nat i * span (S depth).

(** State of the redistribution into count nodes after the values [done]:
    bucket [b] of child [i] counts the key [p + 2 i + b]. *)
Definition count_inv (p : Z) (done : list Z) (slab : list (list Z)) : Prop :=
  length slab = 8%nat /\
  forall i, (i < 8)%nat ->
    length (nth i slab []) = 8%nat /\
    (forall b, (b < 2)%nat ->
       nth b (nth i slab []) 0
       = Z.of_nat (count_occ Z.eq_dec done (p + 2 * Z.of_nat i + Z.of_nat b))) /\
    (forall b, (2 <= b)%nat -> nth b (nth i slab []) 0 = 0).

(** A container that holds the multiset of the inserted values [hist]. *)
Definition holds (triep : sTrie) (hist : list Z) : Prop :=
  wf 0 0 (base_node triep) /\
  Permutation (subtrie_values (base_node triep) 0 0)
    (filter (fun v => negb (v =? 0)) hist) /\
  number_of_zeros triep = u64 (Z.of_nat (count_occ Z.eq_dec hist 0)).

(** The oracle array after the insertions [hist]. *)
Definition oracle_inv (hist : list Z) (array : list Z) : Prop :=
  length array = Z.to_nat (USHRT_MAX + 1) /\
  forall i, (i < Z.to_nat (USHRT_MAX + 1))%nat ->
    nth i array 0 = u64 (Z.of_nat (count_occ Z.eq_dec hist (Z.of_nat i))).

(** Sequences the counters can hold: at most 65535 copies of a non-zero
    value and fewer than 2^64 zeros. *)
Definition within_ceilings (values : list Z) : Prop :=
  Forall (fun v => 0 <= v < 65536) values /\
  (forall v, v <> 0 -> Z.of_nat (count_occ Z.eq_dec values v) <= USHRT_MAX) /\
  Z.of_nat (count_occ Z.eq_dec values 0) < 2 ^ 64.

(** A full data node: 32 non-zero values, largest first. *)
Definition full_node (data : list Z) : Prop :=
  length data = 32%nat /\
  Forall (fun x => 0 < x < 65536) data /\
  StronglySorted Z.ge data.

(** All values of the node select the same child [i] at [depth]. *)
Definition all_routed_to (depth i : nat) (data : list Z) : Prop :=
  forall v, In v data -> Z.to_nat (IDX_FROM_VALUE v depth) = i.

(** ** A concrete allocator and concrete runs, for worked examples *)

(** A bump allocator handing out 512-byte slabs from address 4096. *)
Definition demo_alloc (n : nat) : Z := 4096 + 512 * Z.of_nat n.

Definition run_from_init (values : list Z) : result (sTrie * nat) :=
  s0 <- trie_init demo_alloc 0 ;;
  insert_all demo_alloc values (fst s0) (snd s0).

Definition state_after (values : list Z) : sTrie * nat :=
  match run_from_init values with
  | Done s => s
  | Abort _ => (mkTrie zero_block 0, 0%nat)
  end.

(** Enumeration of the node a burst returns, as the root of a trie. *)
Definition enumerate_burst (r : result (Node * nat)) : result (list Z) :=
  n <- r ;; trie__print_subtrie (fst n) 0 0.

(** ** Outcomes of the operations on well-formed inputs *)

Section Outcomes.

Variable aligned_alloc : nat -> Z.

(** Outcome of a burst of a full data node that satisfies the invariant of
    its place: a travel node over eight well-formed children, child [i]
    holding exactly the values routed to [i]; or an allocation failure. *)
Definition burst_outcome (d : nat) (p : Z) (data : list Z) (heap : nat)
  (r : result (Node * nat)) : Prop :=
  match r with
  | Done r =>
    exists link,
      fst r = TravelNode (aligned_alloc heap) link /\
      aligned_alloc heap <> 0 /\
      length link = 8%nat /\
      (heap < snd r)%nat /\
      forall i, (i < 8)%nat ->
        wf (S d) (child_prefix d p i) (nth i link zero_block) /\
        Permutation
          (subtrie_values (nth i link zero_block) (child_prefix d p i) (S d))
          (routed d i data)
  | Abort f =>
    f = AllocationFailed /\ exists k, (heap <= k)%nat /\ aligned_alloc k = 0
  end.

(** Outcome of an insertion of [v] below a well-formed node: the node stays
    well formed and gains exactly [v]; or the bucket of [v] was at its
    ceiling; or the allocator failed. *)
Definition insert_outcome (d : nat) (p : Z) (n : Node) (v : Z) (heap : nat)
  (r : result (Node * nat)) : Prop :=
  match r with
  | Done r =>
    wf d p (fst r) /\
    Permutation (subtrie_values (fst r) p d) (v :: subtrie_values n p d) /\
    (heap <= snd r)%nat
  | Abort f =>
    (f = CounterCeiling /\
     USHRT_MAX <= Z.of_nat (count_occ Z.eq_dec (subtrie_values n p d) v)) \/
    (f = AllocationFailed /\ exists k, (heap <= k)%nat /\ aligned_alloc k = 0)
  end.

(** Outcome of a public insertion into a container that holds [hist]. *)
Definition step_outcome (hist : list Z) (v : Z) (heap : nat)
  (r : result (sTrie * nat)) : Prop :=
  match r with
  | Done s => holds (fst s) (hist ++ [v]) /\ (heap <= snd s)%nat
  | Abort f =>
    (f = CounterCeiling /\ v <> 0 /\
     USHRT_MAX <= Z.of_nat (count_occ Z.eq_dec hist v)) \/
    (f = AllocationFailed /\ exists k, (heap <= k)%nat /\ aligned_alloc k = 0)
  end.

End Outcomes.
(** * Proofs *)

(** ** Arrays *)

Lemma length_store {A} (l : list A) i x : length (store l i x) = length l.
Proof.
  revert i; induction l as [|h t IH]; intros [|i]; simpl; auto.
Qed.

Lemma nth_store_same {A} (l : list A) i x d :
  (i < length l)%nat -> nth i (store l i x) d = x.
Proof.
  revert i; induction l as [|h t IH]; intros [|i] Hi; simpl in *; try lia; auto.
  apply IH; lia.
Qed.

Lemma nth_store_other {A} (l : list A) i j x d :
  i <> j -> nth j (store l i x) d = nth j l d.
Proof.
  revert i j; induction l as [|h t IH]; intros [|i] [|j] Hij; simpl;
    try reflexivity; try congruence.
  apply IH; congruence.
Qed.

Lemma store_middle {A} (a b : list A) x y :
  store (a ++ x :: b) (length a) y = a ++ y :: b.
Proof.
  induction a as [|h t IH]; simpl; [reflexivity | now rewrite IH].
Qed.

Lemma map_store {A B} (f : A -> B) (l : list A) i x :
  map f (store l i x) = store (map f l) i (f x).
Proof.
  revert i; induction l as [|h t IH]; intros [|i]; simpl; auto.
  now rewrite IH.
Qed.

Lemma firstn_succ_nth {A} (l : list A) k d :
  (k < length l)%nat -> firstn (S k) l = firstn k l ++ [nth k l d].
Proof.
  revert k; induction l as [|h t IH]; intros [|k] Hk; simpl in *; try lia; auto.
  f_equal. apply IH. lia.
Qed.

Lemma nth_repeat_any {A} (a d : A) n k : (k < n)%nat -> nth k (repeat a n) d = a.
Proof.
  revert k; induction n as [|n IH]; intros [|k] Hk; simpl; try lia; auto.
  apply IH; lia.
Qed.

(** ** Sorted lists *)

Lemma ssorted_app {A} (R : A -> A -> Prop) (a b : list A) :
  StronglySorted R (a ++ b) <->
  StronglySorted R a /\ StronglySorted R b /\
  (forall x y, In x a -> In y b -> R x y).
Proof.
  induction a as [|h t IH]; simpl.
  - split.
    + intros H; repeat split; auto using SSorted_nil. intros ? ? [].
    + tauto.
  - split.
    + intros H. apply StronglySorted_inv in H. destruct H as [Ht Hh].
      apply IH in Ht. destruct Ht as (Ht & Hb & Hx).
      rewrite Forall_app in Hh. destruct Hh as [Hh1 Hh2].
      repeat split; auto.
      * constructor; auto.
      * intros x y [<-|Hin] Hy; [|auto].
        rewrite Forall_forall in Hh2; auto.
    + intros (Hs & Hb & Hx). apply StronglySorted_inv in Hs.
      destruct Hs as [Ht Hh]. constructor.
      * apply IH; repeat split; auto.
      * rewrite Forall_app; split; auto.
        rewrite Forall_forall; intros y Hy; auto.
Qed.

Lemma ssorted_rev {A} (R : A -> A -> Prop) (l : list A) :
  StronglySorted R l -> StronglySorted (fun x y => R y x) (rev l).
Proof.
  induction 1 as [|h t Ht IH Hh]; simpl; [constructor|].
  apply ssorted_app; repeat split; auto.
  - repeat constructor.
  - intros x y Hx [<-|[]]. apply in_rev in Hx.
    rewrite Forall_forall in Hh; auto.
Qed.

Lemma ssorted_repeat {A} (R : A -> A -> Prop) (x : A) n :
  R x x -> StronglySorted R (repeat x n).
Proof.
  intros Hx; induction n as [|n IH]; simpl; constructor; auto.
  rewrite Forall_forall; intros y Hy. apply repeat_spec in Hy. now subst.
Qed.

(** Two ascending lists with the same elements are the same list. *)
Lemma ascending_perm_eq (l1 l2 : list Z) :
  StronglySorted Z.le l1 -> StronglySorted Z.le l2 ->
  Permutation l1 l2 -> l1 = l2.
Proof.
  revert l2; induction l1 as [|a t IH]; intros l2 H1 H2 HP.
  - apply Permutation_nil in HP; now subst.
  - destruct l2 as [|b u].
    + apply Permutation_sym, Permutation_nil in HP; discriminate.
    + apply StronglySorted_inv in H1; destruct H1 as [H1 Ha].
      apply StronglySorted_inv in H2; destruct H2 as [H2 Hb].
      rewrite Forall_forall in Ha, Hb.
      assert (a = b) as ->.
      { assert (In a (b :: u)) as Hab
          by (eapply Permutation_in; [exact HP | now left]).
        assert (In b (a :: t)) as Hba
          by (eapply Permutation_in; [apply Permutation_sym; exact HP | now left]).
        destruct Hab as [->|Hab]; [reflexivity|].
        destruct Hba as [->|Hba]; [reflexivity|].
        apply Hb in Hab; apply Ha in Hba; lia. }
      f_equal. apply IH; auto. eapply Permutation_cons_inv; eauto.
Qed.

(** ** The addressing function *)

Lemma land_shifted_ones (v s : Z) :
  0 <= s -> Z.shiftr (Z.land v (Z.shiftl 7 s)) s = (v / 2 ^ s) mod 8.
Proof.
  intros Hs.
  rewrite Z.shiftr_land, Z.shiftr_shiftl_l, Z.sub_diag, Z.shiftl_0_r by lia.
  change 7 with (Z.ones 3).
  rewrite Z.land_ones, Z.shiftr_div_pow2 by lia.
  reflexivity.
Qed.

Lemma IDX_slice (v : Z) (d : nat) :
  (d <= 4)%nat ->
  IDX_FROM_VALUE v d = (v / 2 ^ (13 - 3 * Z.of_nat d)) mod 8.
Proof.
  intros Hd.
  destruct d as [|[|[|[|[|d]]]]]; try lia.
  - apply (land_shifted_ones v 13); lia.
  - apply (land_shifted_ones v 10); lia.
  - apply (land_shifted_ones v 7); lia.
  - apply (land_shifted_ones v 4); lia.
  - apply (land_shifted_ones v 1); lia.
Qed.

Lemma IDX_last_bit (v : Z) : IDX_FROM_VALUE v 5 = v mod 2.
Proof.
  unfold IDX_FROM_VALUE. cbn [GEN_MASK GEN_SHIFT nth mask_array shift_amount].
  rewrite Z.shiftr_0_r. change 1 with (Z.ones 1). rewrite Z.land_ones by lia.
  reflexivity.
Qed.

Lemma IDX_range (v : Z) (d : nat) : (d <= 5)%nat -> 0 <= IDX_FROM_VALUE v d < 8.
Proof.
  intros Hd. destruct (Nat.eq_dec d 5) as [->|Hne].
  - rewrite IDX_last_bit. pose proof (Z.mod_pos_bound v 2). lia.
  - rewrite IDX_slice by lia. apply Z.mod_pos_bound. lia.
Qed.

Lemma IDX_slice_span (v : Z) (d : nat) :
  (d <= 4)%nat -> IDX_FROM_VALUE v d = (v / span (S d)) mod 8.
Proof.
  intros Hd. rewrite IDX_slice by exact Hd. unfold span.
  replace (16 - 3 * Z.of_nat (S d)) with (13 - 3 * Z.of_nat d) by lia.
  reflexivity.
Qed.

Lemma span_pos (d : nat) : (d <= 5)%nat -> 0 < span d.
Proof. intros Hd. unfold span. apply Z.pow_pos_nonneg; lia. Qed.

Lemma span_succ (d : nat) : (d <= 4)%nat -> span d = 8 * span (S d).
Proof.
  intros Hd. unfold span.
  replace (16 - 3 * Z.of_nat d) with (3 + (16 - 3 * Z.of_nat (S d))) by lia.
  rewrite Z.pow_add_r by lia. reflexivity.
Qed.

Lemma span_last : span 5 = 2.
Proof. reflexivity. Qed.

(** The child selected for a key lies on the key's path. *)
Lemma IDX_child (d : nat) (p v : Z) :
  (d <= 4)%nat -> prefix_ok d p -> in_span d p v ->
  in_span (S d) (p + IDX_FROM_VALUE v d * span (S d)) v.
Proof.
  intros Hd (Hp0 & Hpm & Hpu) [Hlo Hhi].
  rewrite IDX_slice_span by exact Hd.
  unfold in_span in *. rewrite span_succ in * by exact Hd.
  pose proof (span_pos (S d) ltac:(lia)) as Hs.
  set (s := span (S d)) in *. clearbody s.
  apply Z.mod_divide in Hpm; [|lia]. destruct Hpm as [k ->].
  assert (v / s = 8 * k + (v - k * (8 * s)) / s) as Hq.
  { replace v with ((v - k * (8 * s)) + (8 * k) * s) at 1 by ring.
    rewrite Z.div_add by lia. ring. }
  assert (0 <= (v - k * (8 * s)) / s < 8) as Hr.
  { split; [apply Z.div_pos; lia | apply Z.div_lt_upper_bound; lia]. }
  set (r := (v - k * (8 * s)) / s) in *.
  assert ((v / s) mod 8 = r) as -> by (rewrite Hq; Z.div_mod_to_equations; lia).
  subst r.
  pose proof (Z.mul_div_le (v - k * (8 * s)) s Hs).
  pose proof (Z.mul_succ_div_gt (v - k * (8 * s)) s Hs).
  lia.
Qed.

(** ... and it is the only such child. *)
Lemma IDX_unique (d : nat) (p v i : Z) :
  (d <= 4)%nat -> prefix_ok d p -> 0 <= i < 8 ->
  in_span (S d) (p + i * span (S d)) v -> IDX_FROM_VALUE v d = i.
Proof.
  intros Hd Hp Hi [Hlo Hhi].
  assert (in_span d p v) as Hv.
  { unfold in_span. rewrite span_succ by exact Hd.
    pose proof (span_pos (S d) ltac:(lia)). nia. }
  destruct (IDX_child d p v Hd Hp Hv) as [Hlo' Hhi'].
  pose proof (IDX_range v d ltac:(lia)).
  pose proof (span_pos (S d) ltac:(lia)).
  set (j := IDX_FROM_VALUE v d) in *. clearbody j.
  destruct (Z.lt_trichotomy j i) as [Hlt|[Heq|Hgt]]; [|exact Heq|]; nia.
Qed.

Lemma prefix_child (d : nat) (p i : Z) :
  (d <= 4)%nat -> prefix_ok d p -> 0 <= i < 8 ->
  prefix_ok (S d) (p + i * span (S d)).
Proof.
  intros Hd (Hp0 & Hpm & Hpu) Hi.
  pose proof (span_pos (S d) ltac:(lia)) as Hs.
  rewrite span_succ in * by exact Hd.
  apply Z.mod_divide in Hpm; [|lia]. destruct Hpm as [k ->].
  repeat split; try nia.
  apply Z.mod_divide; [lia|]. exists (k * 8 + i). ring.
Qed.

Lemma prefix_root : prefix_ok 0 0.
Proof. unfold prefix_ok; cbn; lia. Qed.

(** The value accumulated by the enumeration for child [i]. *)
Lemma child_value_prefix (d : nat) (p : Z) (i : nat) :
  (d <= 4)%nat -> prefix_ok d p -> (i < 8)%nat ->
  child_value p (0x2000 * Z.of_nat i) d = p + Z.of_nat i * span (S d).
Proof.
  intros Hd (Hp0 & Hpm & Hpu) Hi.
  unfold child_value, u16.
  assert (Z.shiftr (0x2000 * Z.of_nat i) (Z.of_nat d * MASK_N_BITS)
          = Z.of_nat i * span (S d)) as ->.
  { destruct d as [|[|[|[|[|d]]]]]; try lia;
      destruct i as [|[|[|[|[|[|[|[|i]]]]]]]]; try lia; reflexivity. }
  rewrite span_succ in Hpu by exact Hd.
  pose proof (span_pos (S d) ltac:(lia)).
  apply Z.mod_small. nia.
Qed.

(** At the last level a key is its prefix plus its lowest bit. *)
Lemma bucket_of_key (p v : Z) :
  prefix_ok 5 p -> in_span 5 p v ->
  IDX_FROM_VALUE v TRIE_MAX_DEPTH = v - p /\ (v = p \/ v = p + 1).
Proof.
  intros (Hp0 & Hpm & Hpu) [Hlo Hhi]. change TRIE_MAX_DEPTH with 5%nat.
  rewrite IDX_last_bit. rewrite span_last in *.
  apply Z.mod_divide in Hpm; [|lia]. destruct Hpm as [k ->].
  assert (v = k * 2 \/ v = k * 2 + 1) as Hv by lia.
  destruct Hv as [->| ->].
  - split; [Z.div_mod_to_equations; lia | lia].
  - split; [Z.div_mod_to_equations; lia | lia].
Qed.

(** ** Data nodes *)

Lemma sparse_length data occ : sparse data occ -> length data = 32%nat.
Proof.
  intros (-> & Hl & _). rewrite length_app, repeat_length. lia.
Qed.

Lemma sparse_empty : sparse (repeat 0 32) [].
Proof.
  split; [reflexivity | split; [simpl; lia | split; constructor]].
Qed.

Lemma sparse_slot0 data occ :
  sparse data occ -> (length occ < 32)%nat -> nth 0 data 0 = 0.
Proof.
  intros (-> & _) Hl.
  destruct (32 - length occ)%nat as [|k] eqn:E; [lia | reflexivity].
Qed.

Lemma sparse_full data occ :
  sparse data occ -> length occ = 32%nat -> data = occ /\ nth 0 data 0 <> 0.
Proof.
  intros (-> & _ & Hpos & _) Hl. rewrite Hl. simpl. split; [reflexivity|].
  destruct occ as [|x t]; [discriminate|]. simpl.
  apply Forall_inv in Hpos. lia.
Qed.

Lemma print_data_loop_prefix (l s : list Z) (k : nat) :
  (k < length l)%nat -> print_data_loop (l ++ s) k = print_data_loop l k.
Proof.
  induction k as [|k IH]; intros Hk; simpl; rewrite app_nth1 by lia.
  - reflexivity.
  - rewrite IH by lia. reflexivity.
Qed.

Lemma print_data_loop_empty (l : list Z) (k : nat) :
  nth k l 0 = 0 -> print_data_loop l k = [].
Proof.
  intros H. destruct k; simpl; rewrite H; reflexivity.
Qed.

Lemma print_data_loop_occupied (occ : list Z) (n : nat) :
  Forall (fun x => x <> 0) occ -> occ <> [] ->
  print_data_loop (repeat 0 n ++ occ) (n + length occ - 1) = rev occ.
Proof.
  induction occ as [|x occ IH] using rev_ind; intros Hnz Hne; [congruence|].
  apply Forall_app in Hnz. destruct Hnz as [Hocc Hx]. apply Forall_inv in Hx.
  rewrite rev_unit, length_app. simpl length.
  replace (n + (length occ + 1) - 1)%nat with (n + length occ)%nat by lia.
  assert (nth (n + length occ) (repeat 0 n ++ occ ++ [x]) 0 = x) as Hnth.
  { rewrite app_assoc, app_nth2; rewrite length_app, repeat_length; [|lia].
    now rewrite Nat.sub_diag. }
  destruct (n + length occ)%nat as [|k] eqn:Ek.
  - simpl print_data_loop. rewrite Hnth.
    destruct (Z.eqb_spec x 0); [contradiction|].
    destruct occ; [reflexivity | simpl in Ek; lia].
  - simpl print_data_loop. rewrite Hnth.
    destruct (Z.eqb_spec x 0); [contradiction|]. f_equal.
    rewrite app_assoc, print_data_loop_prefix
      by (rewrite length_app, repeat_length; lia).
    destruct occ as [|y occ'] using rev_ind.
    + rewrite app_nil_r. simpl in Ek. rewrite Nat.add_0_r in Ek. subst n.
      apply print_data_loop_empty. apply nth_repeat_any. lia.
    + clear IHocc'. replace k with (S k - 1)%nat by lia.
      apply IH; [exact Hocc | now destruct occ'].
Qed.

Lemma print_sparse data occ :
  sparse data occ -> trie__print_data_node data = rev occ.
Proof.
  intros (-> & Hl & Hpos & _). unfold trie__print_data_node.
  destruct occ as [|x t].
  - reflexivity.
  - remember (32 - length (x :: t))%nat as m eqn:Em.
    replace 31%nat with (m + length (x :: t) - 1)%nat by lia.
    apply print_data_loop_occupied; [|discriminate].
    eapply Forall_impl; [|exact Hpos]. simpl; lia.
Qed.

Lemma insert_scan_prefix (l s : list Z) (v : Z) (k : nat) :
  (k < length l)%nat -> insert_scan (l ++ s) v k = insert_scan l v k.
Proof.
  induction k as [|k IH]; intros Hk; simpl; rewrite app_nth1 by lia.
  - reflexivity.
  - rewrite IH by lia. reflexivity.
Qed.

Lemma insert_scan_stops (lo pre : list Z) (x v : Z) :
  Forall (fun y => y <> 0 /\ y < v) lo -> (x = 0 \/ v <= x) ->
  insert_scan (pre ++ x :: lo) v (length pre + length lo) = Done (length pre).
Proof.
  induction lo as [|y lo IH] using rev_ind; intros Hlo Hx.
  - simpl length. rewrite Nat.add_0_r.
    assert (nth (length pre) (pre ++ [x]) 0 = x) as Hnth
      by (rewrite app_nth2, Nat.sub_diag by lia; reflexivity).
    destruct (length pre) eqn:E; simpl insert_scan; rewrite Hnth;
      destruct (Z.eqb_spec x 0); destruct (Z.ltb_spec x v); simpl;
      try reflexivity; lia.
  - apply Forall_app in Hlo. destruct Hlo as [Hlo Hy].
    apply Forall_inv in Hy. rewrite length_app. simpl length.
    replace (length pre + (length lo + 1))%nat
      with (S (length pre + length lo)) by lia.
    assert (pre ++ x :: lo ++ [y] = (pre ++ x :: lo) ++ [y]) as ->
      by (rewrite <- app_assoc; reflexivity).
    simpl insert_scan.
    assert (nth (S (length pre + length lo)) ((pre ++ x :: lo) ++ [y]) 0 = y)
      as ->.
    { rewrite app_nth2; rewrite length_app; simpl length; [|lia].
      replace (S (length pre + length lo) - (length pre + S (length lo)))%nat
        with 0%nat by lia. reflexivity. }
    destruct (Z.eqb_spec y 0); destruct (Z.ltb_spec y v); simpl; try lia.
    rewrite insert_scan_prefix by (rewrite length_app; simpl; lia).
    apply IH; assumption.
Qed.

(** Split of a descending list at the place where [v] belongs. *)
Lemma descending_split (occ : list Z) (v : Z) :
  StronglySorted Z.ge occ ->
  exists hi lo, occ = hi ++ lo /\
    Forall (fun x => v <= x) hi /\ Forall (fun x => x < v) lo.
Proof.
  induction 1 as [|x t Ht IH Hx].
  - exists [], []; repeat split; constructor.
  - destruct (Z.le_gt_cases v x) as [Hle|Hgt].
    + destruct IH as (hi & lo & -> & Hhi & Hlo).
      exists (x :: hi), lo; repeat split; auto.
    + exists [], (x :: t); repeat split; [constructor|].
      constructor; [lia|]. eapply Forall_impl; [|exact Hx]. simpl; lia.
Qed.

Lemma descending_insert (hi lo : list Z) (v : Z) :
  StronglySorted Z.ge (hi ++ lo) ->
  Forall (fun x => v <= x) hi -> Forall (fun x => x < v) lo ->
  StronglySorted Z.ge (hi ++ v :: lo).
Proof.
  intros Hs Hhi Hlo. apply ssorted_app in Hs. destruct Hs as (H1 & H2 & H3).
  apply ssorted_app; repeat split; auto.
  - constructor; auto. eapply Forall_impl; [|exact Hlo]. simpl; lia.
  - intros x y Hx [<-|Hy].
    + rewrite Forall_forall in Hhi. apply Hhi in Hx. lia.
    + auto.
Qed.

(** The placement of [trie_insert_value]: [v] goes below the larger or equal
    values and above the smaller ones; one empty slot is used up. *)
Lemma data_node_insert_spec (data occ : list Z) (v : Z) :
  sparse data occ -> (length occ < 32)%nat -> 0 < v < 65536 ->
  exists hi lo, occ = hi ++ lo /\
    Forall (fun x => v <= x) hi /\ Forall (fun x => x < v) lo /\
    data_node_insert data v = Done (repeat 0 (31 - length occ) ++ hi ++ v :: lo) /\
    sparse (repeat 0 (31 - length occ) ++ hi ++ v :: lo) (hi ++ v :: lo).
Proof.
  intros Hsp Hlen Hv. pose proof Hsp as (Hdata & _ & Hpos & Hsorted).
  destruct (descending_split occ v Hsorted) as (hi & lo & Hocc & Hhi & Hlo).
  exists hi, lo. repeat split; auto.
  - subst occ. rewrite length_app in *.
    assert (Forall (fun y => y <> 0 /\ y < v) lo) as Hlo'.
    { apply Forall_app in Hpos. destruct Hpos as [_ Hpos].
      rewrite Forall_forall in *. intros y Hy.
      specialize (Hpos y Hy). specialize (Hlo y Hy). lia. }
    unfold data_node_insert.
    replace (32 - (length hi + length lo))%nat
      with (S (31 - (length hi + length lo))) in Hdata by lia.
    set (k := (31 - (length hi + length lo))%nat) in *.
    destruct hi as [|x hi'] using rev_ind.
    + (* the scan ends on the last empty slot *)
      simpl app in *.
      assert (data = repeat 0 k ++ 0 :: lo) as ->.
      { rewrite Hdata. change (0 :: repeat 0 k ++ lo) with ((0 :: repeat 0 k) ++ lo).
        rewrite repeat_cons, <- app_assoc. reflexivity. }
      replace 31%nat with (length (repeat 0%Z k) + length lo)%nat.
      2:{ rewrite repeat_length; unfold k; simpl length; lia. }
      rewrite insert_scan_stops by auto. cbn [bind].
      rewrite app_nth2, Nat.sub_diag by lia. cbn [nth].
      rewrite Z.eqb_refl, store_middle. reflexivity.
    + (* the scan ends on an occupied slot: shift, then write *)
      try clear IHhi'. rewrite length_app in *. simpl length in *.
      apply Forall_app in Hhi. destruct Hhi as [_ Hx]. apply Forall_inv in Hx.
      assert (x <> 0) as Hx0.
      { apply Forall_app in Hpos. destruct Hpos as [Hpos _].
        apply Forall_app in Hpos. destruct Hpos as [_ Hpos].
        apply Forall_inv in Hpos. lia. }
      assert (data = (repeat 0 (S k) ++ hi') ++ x :: lo) as Hd
        by (rewrite Hdata, <- !app_assoc; reflexivity).
      rewrite Hd.
      replace 31%nat with (length (repeat 0%Z (S k) ++ hi') + length lo)%nat
        by (rewrite length_app, repeat_length; unfold k;
            rewrite ?length_app; simpl length; lia).
      rewrite insert_scan_stops by auto. cbn [bind].
      rewrite app_nth2, Nat.sub_diag by lia. cbn [nth].
      destruct (Z.eqb_spec x 0) as [|_]; [contradiction|].
      unfold memmove_down. f_equal.
      assert (skipn 1 ((repeat 0 (S k) ++ hi') ++ x :: lo)
              = (repeat 0 k ++ hi' ++ [x]) ++ lo) as ->
        by (simpl; rewrite <- !app_assoc; reflexivity).
      assert (length (repeat 0 (S k) ++ hi') = length (repeat 0 k ++ hi' ++ [x]))
        as Hl by (rewrite !length_app, !repeat_length; simpl; lia).
      rewrite Hl at 1. rewrite firstn_app, firstn_all, Nat.sub_diag, firstn_O,
        app_nil_r.
      rewrite skipn_app, skipn_all, Nat.sub_diag. cbn [skipn app].
      rewrite Hl, store_middle, <- !app_assoc. reflexivity.
  - subst occ. rewrite !length_app in *. simpl length.
    f_equal. f_equal. lia.
  - subst occ. rewrite !length_app in *. simpl length. lia.
  - subst occ. apply Forall_app in Hpos. destruct Hpos as [H1 H2].
    apply Forall_app; split; [exact H1|]. constructor; [lia | exact H2].
  - subst occ. apply descending_insert; assumption.
Qed.

(** ** The redistribution loops *)

Lemma burst_data_loop_redistribute (data : list Z) (d k : nat) (st : burst_state) :
  (k < length data)%nat ->
  burst_data_loop data d k st = redistribute d (rev (firstn (S k) data)) st.
Proof.
  revert st; induction k as [|k IH]; intros st Hk.
  - destruct data as [|x t]; [simpl in Hk; lia|]. reflexivity.
  - rewrite (firstn_succ_nth data (S k) 0 Hk), rev_unit.
    cbn [burst_data_loop redistribute].
    destruct (burst_data_step d st (nth (S k) data 0)); cbn [bind];
      [apply IH; lia | reflexivity].
Qed.

Lemma burst_count_loop_fold (data : list Z) (d k : nat) (slab : list (list Z)) :
  (k < length data)%nat ->
  burst_count_loop data d k slab
  = fold_left (burst_count_step d) (rev (firstn (S k) data)) slab.
Proof.
  revert slab; induction k as [|k IH]; intros slab Hk.
  - destruct data as [|x t]; [simpl in Hk; lia|]. reflexivity.
  - rewrite (firstn_succ_nth data (S k) 0 Hk), rev_unit.
    cbn [burst_count_loop fold_left]. apply IH; lia.
Qed.

Lemma burst_scan_prefix (l s : list Z) (v : Z) (k : nat) :
  (k < length l)%nat -> burst_scan (l ++ s) v k = burst_scan l v k.
Proof.
  induction k as [|k IH]; intros Hk; simpl; rewrite app_nth1 by lia.
  - reflexivity.
  - rewrite IH by lia. reflexivity.
Qed.

Lemma burst_scan_stops (lo pre : list Z) (x v : Z) :
  Forall (fun y => y <> 0 /\ y <= v) lo -> (x = 0 \/ v < x) ->
  burst_scan (pre ++ x :: lo) v (length pre + length lo) = Done (length pre).
Proof.
  induction lo as [|y lo IH] using rev_ind; intros Hlo Hx.
  - simpl length. rewrite Nat.add_0_r.
    assert (nth (length pre) (pre ++ [x]) 0 = x) as Hnth
      by (rewrite app_nth2, Nat.sub_diag by lia; reflexivity).
    destruct (length pre) eqn:E; simpl burst_scan; rewrite Hnth;
      destruct (Z.eqb_spec x 0); destruct (Z.leb_spec x v); simpl;
      try reflexivity; lia.
  - apply Forall_app in Hlo. destruct Hlo as [Hlo Hy].
    apply Forall_inv in Hy. rewrite length_app. simpl length.
    replace (length pre + (length lo + 1))%nat
      with (S (length pre + length lo)) by lia.
    assert (pre ++ x :: lo ++ [y] = (pre ++ x :: lo) ++ [y]) as ->
      by (rewrite <- app_assoc; reflexivity).
    simpl burst_scan.
    assert (nth (S (length pre + length lo)) ((pre ++ x :: lo) ++ [y]) 0 = y)
      as ->.
    { rewrite app_nth2; rewrite length_app; simpl length; [|lia].
      replace (S (length pre + length lo) - (length pre + S (length lo)))%nat
        with 0%nat by lia. reflexivity. }
    destruct (Z.eqb_spec y 0); destruct (Z.leb_spec y v); simpl; try lia.
    rewrite burst_scan_prefix by (rewrite length_app; simpl; lia).
    apply IH; assumption.
Qed.

Lemma routed_app d i (a b : list Z) :
  routed d i (a ++ b) = routed d i a ++ routed d i b.
Proof. apply filter_app. Qed.

Lemma routed_length d i (l : list Z) : (length (routed d i l) <= length l)%nat.
Proof. apply filter_length_le. Qed.

Lemma routed_In d i (l : list Z) v :
  In v (routed d i l) <-> In v l /\ Z.to_nat (IDX_FROM_VALUE v d) = i.
Proof.
  unfold routed. rewrite filter_In, Nat.eqb_eq. reflexivity.
Qed.

Lemma routed_one_same d (v : Z) :
  routed d (Z.to_nat (IDX_FROM_VALUE v d)) [v] = [v].
Proof. unfold routed; simpl. now rewrite Nat.eqb_refl. Qed.

Lemma routed_one_other d i (v : Z) :
  Z.to_nat (IDX_FROM_VALUE v d) <> i -> routed d i [v] = [].
Proof.
  intros H. unfold routed; simpl.
  destruct (Nat.eqb_spec (Z.to_nat (IDX_FROM_VALUE v d)) i); congruence.
Qed.

Lemma slab_inv_empty d : slab_inv d [] empty_slab.
Proof.
  repeat split.
  - intros i Hi. cbn [routed filter length rev app fst empty_slab].
    rewrite app_nil_r. apply nth_repeat_any. exact Hi.
  - discriminate.
  - discriminate.
  - intros _ i. simpl. lia.
Qed.

(** One placement: the scan stops on the child's last empty slot, which
    receives the value. *)
Lemma burst_data_step_spec (d : nat) (done : list Z) (st : burst_state) (v : Z) :
  (d <= 4)%nat -> slab_inv d done st -> (length done < 32)%nat ->
  Forall (fun x => 0 < x <= v) done ->
  let i := Z.to_nat (IDX_FROM_VALUE v d) in
  let e := (31 - length (routed d i done))%nat in
  burst_scan (nth i (fst st) []) v 31 = Done e /\
  nth e (nth i (fst st) []) 0 = 0 /\
  exists st', burst_data_step d st v = Done st' /\ slab_inv d (done ++ [v]) st'.
Proof.
  intros Hd (Hlen & Hch & Hsome & Hnone) Hdone Hle i e.
  assert (i < 8)%nat as Hi
    by (pose proof (IDX_range v d ltac:(lia)); unfold i; lia).
  pose proof (routed_length d i done) as Hri.
  assert (nth i (fst st) [] = repeat 0 e ++ 0 :: rev (routed d i done)) as Hchild.
  { rewrite (Hch i Hi).
    replace (32 - length (routed d i done))%nat with (S e) by (unfold e; lia).
    cbn [repeat]. rewrite repeat_cons, <- app_assoc. reflexivity. }
  assert (burst_scan (nth i (fst st) []) v 31 = Done e) as Hscan.
  { rewrite Hchild.
    replace 31%nat
      with (length (repeat 0%Z e) + length (rev (routed d i done)))%nat
      by (rewrite repeat_length, length_rev; unfold e; lia).
    rewrite burst_scan_stops; [now rewrite repeat_length | | now left].
    apply Forall_rev. rewrite Forall_forall. intros y Hy.
    apply routed_In in Hy. destruct Hy as [Hy _].
    rewrite Forall_forall in Hle. specialize (Hle y Hy). lia. }
  assert (nth e (nth i (fst st) []) 0 = 0) as Hslot.
  { rewrite Hchild, app_nth2; rewrite repeat_length; [|lia].
    now rewrite Nat.sub_diag. }
  repeat split; auto.
  unfold burst_data_step. fold i. rewrite Hscan. cbn [bind].
  eexists; split; [reflexivity|].
  assert (forall j, routed d j (done ++ [v])
                    = if Nat.eqb i j then routed d j done ++ [v]
                      else routed d j done) as Hr.
  { intros j. rewrite routed_app. destruct (Nat.eqb_spec i j) as [<-|Hne].
    - unfold i. now rewrite routed_one_same.
    - rewrite routed_one_other by exact Hne. apply app_nil_r. }
  split; [|split; [|split]]; cbn [fst snd].
  - rewrite length_store. exact Hlen.
  - intros j Hj. rewrite Hr. destruct (Nat.eqb_spec i j) as [<-|Hne].
    + rewrite nth_store_same by lia. rewrite Hchild.
      replace e with (length (repeat 0%Z e)) at 2 by apply repeat_length.
      rewrite store_middle, length_app, rev_unit. simpl length.
      replace (32 - (length (routed d i done) + 1))%nat with e
        by (unfold e; lia).
      reflexivity.
    + rewrite nth_store_other by exact Hne. apply Hch, Hj.
  - intros j Hj. destruct (Nat.eqb_spec e 0) as [He|He].
    + injection Hj as <-. split; [exact Hi|].
      rewrite Hr, Nat.eqb_refl, length_app. simpl length. unfold e in He. lia.
    + pose proof (routed_length d j done). apply Hsome in Hj. lia.
  - destruct (Nat.eqb_spec e 0) as [He|He]; [discriminate|].
    intros Hn j. rewrite Hr. destruct (Nat.eqb_spec i j) as [<-|Hne].
    + rewrite length_app. simpl length. unfold e in He. lia.
    + apply Hnone, Hn.
Qed.

(** ** Classification *)

Lemma tagged_pointer_low_half (ptr : Z) : u16 (TAG_PTR ptr) <> 0.
Proof.
  unfold u16, TAG_PTR. rewrite <- Z.land_ones by lia. intros H.
  assert (Z.testbit (Z.land (Z.lor ptr 1) (Z.ones 16)) 0 = true) as Hb.
  { rewrite Z.land_spec, Z.lor_spec. cbn. now rewrite orb_true_r. }
  rewrite H in Hb. discriminate.
Qed.

Lemma classify_travel (slab : Z) (link : list Node) (d : nat) :
  d <> TRIE_MAX_DEPTH ->
  trie__determine_node_type (TravelNode slab link) d = NODE_TYPE_TRAVEL.
Proof.
  intros Hd. unfold trie__determine_node_type.
  destruct (Nat.eqb_spec d TRIE_MAX_DEPTH); [contradiction|].
  cbn [data_slot0]. pose proof (tagged_pointer_low_half (slab + CACHE_LINE_SIZE * Z.of_nat 0)).
  unfold link_ptr. destruct (Z.eqb_spec (u16 (TAG_PTR (slab + CACHE_LINE_SIZE * Z.of_nat 0))) 0);
    [contradiction | reflexivity].
Qed.

Lemma classify_data (data : list Z) (d : nat) :
  d <> TRIE_MAX_DEPTH -> nth 0 data 0 = 0 ->
  trie__determine_node_type (DataNode data) d = NODE_TYPE_DATA.
Proof.
  intros Hd H0. unfold trie__determine_node_type.
  destruct (Nat.eqb_spec d TRIE_MAX_DEPTH); [contradiction|].
  cbn [data_slot0]. rewrite H0. reflexivity.
Qed.

Lemma classify_count (n : Node) :
  trie__determine_node_type n TRIE_MAX_DEPTH = NODE_TYPE_COUNT.
Proof. reflexivity. Qed.

Lemma wf_classified (d : nat) (p : Z) (n : Node) :
  wf d p n -> trie__determine_node_type n d = shape n.
Proof.
  intros [d' p' data occ Hd Hsp Hlen _ | d' p' slab link Hd _ _ | p' count _ _ _].
  - apply classify_data; [unfold TRIE_MAX_DEPTH in *; lia|].
    eapply sparse_slot0; eauto.
  - apply classify_travel. unfold TRIE_MAX_DEPTH in *; lia.
  - reflexivity.
Qed.

(** ** Enumeration of a well-formed subtrie *)

Lemma print_done_values (n : Node) (p : Z) (d : nat) (l : list Z) :
  trie__print_subtrie n p d = Done l -> subtrie_values n p d = l.
Proof. unfold subtrie_values. now intros ->. Qed.

Lemma print_travel_raw (slab : Z) (link : list Node) (d : nat) (p : Z)
  (L : nat -> list Z) :
  (d <= 4)%nat -> prefix_ok d p ->
  (forall i, (i < 8)%nat ->
     trie__print_subtrie (nth i link zero_block) (child_prefix d p i) (S d)
     = Done (L i)) ->
  trie__print_subtrie (TravelNode slab link) p d = Done (flat_map L (seq 0 8)).
Proof.
  intros Hd Hp HL. unfold trie__print_subtrie in *.
  replace (S TRIE_MAX_DEPTH - d)%nat with (S (S TRIE_MAX_DEPTH - S d))
    by (unfold TRIE_MAX_DEPTH; lia).
  cbn [print_rec]. rewrite classify_travel by (unfold TRIE_MAX_DEPTH; lia).
  change 0x0000 with (0x2000 * Z.of_nat 0).
  change 0x2000 with (0x2000 * Z.of_nat 1) at 2.
  change 0x4000 with (0x2000 * Z.of_nat 2).
  change 0x6000 with (0x2000 * Z.of_nat 3).
  change 0x8000 with (0x2000 * Z.of_nat 4).
  change 0xA000 with (0x2000 * Z.of_nat 5).
  change 0xC000 with (0x2000 * Z.of_nat 6).
  change 0xE000 with (0x2000 * Z.of_nat 7).
  rewrite !child_value_prefix by (auto; lia).
  fold (child_prefix d p 0) (child_prefix d p 1) (child_prefix d p 2)
       (child_prefix d p 3) (child_prefix d p 4) (child_prefix d p 5)
       (child_prefix d p 6) (child_prefix d p 7).
  rewrite !HL by lia. cbn [bind flat_map seq]. rewrite app_nil_r. reflexivity.
Qed.

Lemma print_data_raw (data : list Z) (d : nat) (p : Z) :
  (d <= 4)%nat -> nth 0 data 0 = 0 ->
  trie__print_subtrie (DataNode data) p d = Done (trie__print_data_node data).
Proof.
  intros Hd H0. unfold trie__print_subtrie.
  replace (S TRIE_MAX_DEPTH - d)%nat with (S (S TRIE_MAX_DEPTH - S d))
    by (unfold TRIE_MAX_DEPTH; lia).
  cbn [print_rec]. rewrite classify_data by (unfold TRIE_MAX_DEPTH; auto; lia).
  reflexivity.
Qed.

Lemma print_count_raw (count : list Z) (p : Z) :
  trie__print_subtrie (CountNode count) p TRIE_MAX_DEPTH
  = Done (trie__print_count_node count p
          ++ trie__print_count_node count (u16 (p + 1))).
Proof. reflexivity. Qed.

Lemma flat_map_ascending (L : nat -> list Z) (p s : Z) (a n : nat) :
  0 <= s ->
  (forall i, (a <= i < a + n)%nat -> StronglySorted Z.le (L i)) ->
  (forall i, (a <= i < a + n)%nat ->
     Forall (fun v => p + Z.of_nat i * s <= v < p + Z.of_nat i * s + s) (L i)) ->
  StronglySorted Z.le (flat_map L (seq a n)).
Proof.
  intros Hs. revert a; induction n as [|n IH]; intros a Hsorted Hrange.
  - constructor.
  - cbn [seq flat_map]. apply ssorted_app. split; [|split].
    + apply Hsorted; lia.
    + apply IH; intros i Hi; [apply Hsorted | apply Hrange]; lia.
    + intros x y Hx Hy. apply in_flat_map in Hy. destruct Hy as (j & Hj & Hy).
      apply in_seq in Hj.
      pose proof (Hrange a ltac:(lia)) as Ha. pose proof (Hrange j ltac:(lia)) as Hjr.
      rewrite Forall_forall in Ha, Hjr. specialize (Ha x Hx). specialize (Hjr y Hy).
      nia.
Qed.

Lemma flat_map_in_span (L : nat -> list Z) (d : nat) (p : Z) :
  (d <= 4)%nat ->
  (forall i, (i < 8)%nat -> Forall (in_span (S d) (child_prefix d p i)) (L i)) ->
  Forall (in_span d p) (flat_map L (seq 0 8)).
Proof.
  intros Hd HL. rewrite Forall_forall. intros x Hx.
  apply in_flat_map in Hx. destruct Hx as (i & Hi & Hx). apply in_seq in Hi.
  specialize (HL i ltac:(lia)). rewrite Forall_forall in HL.
  specialize (HL x Hx). unfold in_span, child_prefix in *.
  rewrite (span_succ d) by exact Hd.
  pose proof (span_pos (S d) ltac:(lia)). nia.
Qed.

Lemma print_count_values (count : list Z) (p : Z) :
  prefix_ok 5 p ->
  trie__print_count_node count p ++ trie__print_count_node count (u16 (p + 1))
  = repeat p (Z.to_nat (nth 0 count 0))
    ++ repeat (p + 1) (Z.to_nat (nth 1 count 0)).
Proof.
  intros Hp. pose proof Hp as (Hp0 & Hpm & Hpu). rewrite span_last in *.
  assert (u16 (p + 1) = p + 1) as -> by (apply Z.mod_small; lia).
  unfold trie__print_count_node, trie__get_count_node_bucket.
  destruct (bucket_of_key p p Hp) as [-> _];
    [unfold in_span; rewrite span_last; lia|].
  destruct (bucket_of_key p (p + 1) Hp) as [-> _];
    [unfold in_span; rewrite span_last; lia|].
  replace (p - p) with 0 by lia. replace (p + 1 - p) with 1 by lia.
  reflexivity.
Qed.

(** A well-formed subtrie prints without fault, in ascending order, and only
    keys of its own interval. *)
Lemma print_wf (d : nat) (p : Z) (n : Node) :
  wf d p n -> prefix_ok d p ->
  trie__print_subtrie n p d = Done (subtrie_values n p d) /\
  StronglySorted Z.le (subtrie_values n p d) /\
  Forall (in_span d p) (subtrie_values n p d).
Proof.
  induction 1 as [d p data occ Hd Hsp Hlen Hspan
                 | d p slab link Hd Hlen Hch IH
                 | p count Hlen Hc Hz]; intros Hp.
  - unfold TRIE_MAX_DEPTH in Hd.
    assert (trie__print_subtrie (DataNode data) p d = Done (rev occ)) as E.
    { rewrite print_data_raw by (try lia; eapply sparse_slot0; eauto).
      f_equal. apply print_sparse, Hsp. }
    rewrite (print_done_values _ _ _ _ E). split; [exact E|split].
    + destruct Hsp as (_ & _ & _ & Hs). apply ssorted_rev in Hs.
      clear -Hs. induction Hs as [|x t Ht IHt Hx]; constructor; auto.
      eapply Forall_impl; [|exact Hx]. simpl; lia.
    + apply Forall_rev, Hspan.
  - unfold TRIE_MAX_DEPTH in Hd.
    assert (forall i, (i < 8)%nat -> prefix_ok (S d) (child_prefix d p i)) as Hpc
      by (intros i Hi; apply prefix_child; auto; lia).
    set (L := fun i => subtrie_values (nth i link zero_block)
                         (child_prefix d p i) (S d)).
    assert (trie__print_subtrie (TravelNode slab link) p d
            = Done (flat_map L (seq 0 8))) as E.
    { apply print_travel_raw; auto; try lia.
      intros i Hi. apply (IH i Hi), Hpc, Hi. }
    rewrite (print_done_values _ _ _ _ E). split; [exact E|split].
    + apply (flat_map_ascending L p (span (S d))).
      * pose proof (span_pos (S d) ltac:(lia)); lia.
      * intros i Hi. apply (IH i ltac:(lia)), Hpc. lia.
      * intros i Hi. destruct (IH i ltac:(lia) (Hpc i ltac:(lia))) as (_ & _ & Hr).
        exact Hr.
    + apply flat_map_in_span; [lia|]. intros i Hi.
      apply (IH i Hi), Hpc, Hi.
  - assert (trie__print_subtrie (CountNode count) p TRIE_MAX_DEPTH
            = Done (repeat p (Z.to_nat (nth 0 count 0))
                    ++ repeat (p + 1) (Z.to_nat (nth 1 count 0)))) as E
      by (rewrite print_count_raw, print_count_values by exact Hp; reflexivity).
    rewrite (print_done_values _ _ _ _ E). split; [exact E|split].
    + apply ssorted_app. split; [|split].
      * apply ssorted_repeat; lia.
      * apply ssorted_repeat; lia.
      * intros x y Hx Hy. apply repeat_spec in Hx, Hy. lia.
    + apply Forall_app. unfold in_span. change (span TRIE_MAX_DEPTH) with 2.
      split; rewrite Forall_forall; intros x Hx; apply repeat_spec in Hx; lia.
Qed.

Lemma values_travel (d : nat) (p : Z) (slab : Z) (link : list Node) :
  wf d p (TravelNode slab link) -> prefix_ok d p ->
  subtrie_values (TravelNode slab link) p d
  = flat_map (fun i => subtrie_values (nth i link zero_block)
                         (child_prefix d p i) (S d)) (seq 0 8).
Proof.
  intros Hwf Hp. inversion Hwf as [| d' p' slab' link' Hd Hlen Hch |]; subst.
  unfold TRIE_MAX_DEPTH in Hd.
  apply print_done_values, print_travel_raw; auto; try lia.
  intros i Hi. apply print_wf; [apply Hch, Hi|].
  apply prefix_child; auto; lia.
Qed.

Lemma values_data (d : nat) (p : Z) (data occ : list Z) :
  (d <= 4)%nat -> sparse data occ -> (length occ < 32)%nat ->
  subtrie_values (DataNode data) p d = rev occ.
Proof.
  intros Hd Hsp Hlen. apply print_done_values.
  rewrite print_data_raw by (auto; eapply sparse_slot0; eauto).
  f_equal. apply print_sparse, Hsp.
Qed.

Lemma values_count (p : Z) (count : list Z) :
  prefix_ok 5 p ->
  subtrie_values (CountNode count) p TRIE_MAX_DEPTH
  = repeat p (Z.to_nat (nth 0 count 0))
    ++ repeat (p + 1) (Z.to_nat (nth 1 count 0)).
Proof.
  intros Hp. apply print_done_values.
  rewrite print_count_raw, print_count_values by exact Hp. reflexivity.
Qed.

(** ** Multisets spread over the eight children *)

Lemma flat_map_perm (L L' : nat -> list Z) (s : list nat) :
  (forall i, In i s -> Permutation (L' i) (L i)) ->
  Permutation (flat_map L' s) (flat_map L s).
Proof.
  induction s as [|a s IH]; intros H; simpl; [constructor|].
  apply Permutation_app; [apply H; now left | apply IH; intros; apply H; now right].
Qed.

Lemma flat_map_perm_at (L L' : nat -> list Z) (k : nat) (v : Z) (s : list nat) :
  NoDup s -> In k s ->
  Permutation (L' k) (v :: L k) ->
  (forall j, j <> k -> L' j = L j) ->
  Permutation (flat_map L' s) (v :: flat_map L s).
Proof.
  intros Hnd Hin Hk Hother. induction s as [|a s IH]; [destruct Hin|].
  apply NoDup_cons_iff in Hnd. destruct Hnd as [Ha Hnd]. simpl.
  destruct (Nat.eq_dec a k) as [->|Hne].
  - change (v :: L k ++ flat_map L s) with ((v :: L k) ++ flat_map L s).
    apply Permutation_app; [exact Hk|].
    apply flat_map_perm. intros j Hj. rewrite Hother; [reflexivity|].
    intros ->. contradiction.
  - destruct Hin as [Heq|Hin]; [contradiction|].
    rewrite (Hother a Hne).
    eapply Permutation_trans;
      [apply Permutation_app_head, IH; assumption | apply Permutation_sym, Permutation_middle].
Qed.

Lemma routed_cons d i (v : Z) (l : list Z) :
  routed d i (v :: l)
  = if Nat.eqb (Z.to_nat (IDX_FROM_VALUE v d)) i then v :: routed d i l
    else routed d i l.
Proof. reflexivity. Qed.

(** Every value is routed to exactly one of the eight children. *)
Lemma routed_partition (d : nat) (l : list Z) :
  (d <= 5)%nat ->
  Permutation (flat_map (fun i => routed d i l) (seq 0 8)) l.
Proof.
  intros Hd. induction l as [|v l IH].
  - simpl. constructor.
  - eapply Permutation_trans; [|apply perm_skip, IH].
    apply (flat_map_perm_at _ _ (Z.to_nat (IDX_FROM_VALUE v d))).
    + apply seq_NoDup.
    + apply in_seq. pose proof (IDX_range v d Hd). lia.
    + rewrite routed_cons, Nat.eqb_refl. reflexivity.
    + intros j Hj. rewrite routed_cons.
      destruct (Nat.eqb_spec (Z.to_nat (IDX_FROM_VALUE v d)) j); congruence.
Qed.

Lemma routed_rev d i (l : list Z) : routed d i (rev l) = rev (routed d i l).
Proof. unfold routed. apply filter_rev. Qed.

Lemma routed_all d i (l : list Z) :
  length (routed d i l) = length l -> routed d i l = l.
Proof.
  induction l as [|v l IH]; [reflexivity|]. rewrite routed_cons.
  pose proof (routed_length d i l).
  destruct (Nat.eqb (Z.to_nat (IDX_FROM_VALUE v d)) i); simpl; intros Hl.
  - f_equal. apply IH. lia.
  - lia.
Qed.

Lemma routed_elsewhere d i j (l : list Z) :
  routed d i l = l -> i <> j -> routed d j l = [].
Proof.
  intros Hall Hij.
  assert (forall v, In v l -> Z.to_nat (IDX_FROM_VALUE v d) = i) as H
    by (intros v Hv; rewrite <- Hall in Hv; apply routed_In in Hv; tauto).
  clear Hall. induction l as [|v l IH]; [reflexivity|].
  rewrite routed_cons.
  destruct (Nat.eqb_spec (Z.to_nat (IDX_FROM_VALUE v d)) j) as [E|E].
  - rewrite (H v) in E by now left. contradiction.
  - apply IH. intros w Hw. apply H. now right.
Qed.

Lemma ssorted_filter {A} (R : A -> A -> Prop) (f : A -> bool) (l : list A) :
  StronglySorted R l -> StronglySorted R (filter f l).
Proof.
  induction 1 as [|x t Ht IH Hx]; simpl; [constructor|].
  destruct (f x); [|exact IH]. constructor; [exact IH|].
  rewrite Forall_forall in *. intros y Hy. apply filter_In in Hy. apply Hx, Hy.
Qed.

Lemma ssorted_impl {A} (R S : A -> A -> Prop) (l : list A) :
  (forall x y, R x y -> S x y) -> StronglySorted R l -> StronglySorted S l.
Proof.
  intros HRS. induction 1 as [|x t Ht IH Hx]; constructor; auto.
  eapply Forall_impl; [|exact Hx]. auto.
Qed.

Lemma descending_rev_ascending (l : list Z) :
  StronglySorted Z.ge l -> StronglySorted Z.le (rev l).
Proof.
  intros H. apply ssorted_rev in H.
  eapply ssorted_impl; [|exact H]. simpl; intros; lia.
Qed.

Lemma ascending_rev_descending (l : list Z) :
  StronglySorted Z.le l -> StronglySorted Z.ge (rev l).
Proof.
  intros H. apply ssorted_rev in H.
  eapply ssorted_impl; [|exact H]. simpl; intros; lia.
Qed.

(** ** Redistribution into data nodes *)

Lemma redistribute_spec (d : nat) (vs done : list Z) (st : burst_state) :
  (d <= 4)%nat -> slab_inv d done st ->
  (length (done ++ vs) <= 32)%nat ->
  StronglySorted Z.le (done ++ vs) ->
  Forall (fun x => 0 < x) (done ++ vs) ->
  exists st', redistribute d vs st = Done st' /\ slab_inv d (done ++ vs) st'.
Proof.
  intros Hd. revert done st.
  induction vs as [|v vs IH]; intros done st Hinv Hlen Hs Hpos.
  - exists st. rewrite app_nil_r. split; [reflexivity | exact Hinv].
  - assert (Forall (fun x => 0 < x <= v) done) as Hle.
    { apply ssorted_app in Hs. destruct Hs as (_ & _ & Hs).
      apply Forall_app in Hpos. destruct Hpos as [Hpos _].
      rewrite Forall_forall in *. intros x Hx.
      specialize (Hs x v Hx ltac:(now left)). specialize (Hpos x Hx). lia. }
    rewrite length_app in Hlen. simpl in Hlen.
    destruct (burst_data_step_spec d done st v Hd Hinv ltac:(lia) Hle)
      as (_ & _ & st1 & Hstep & Hinv1).
    cbn [redistribute]. rewrite Hstep. cbn [bind].
    replace (done ++ v :: vs) with ((done ++ [v]) ++ vs) in *
      by (rewrite <- app_assoc; reflexivity).
    apply IH; auto. rewrite !length_app. simpl. lia.
Qed.

(** A child that is left a data node by the redistribution. *)
Lemma redistributed_child (d : nat) (p : Z) (data : list Z) (st : burst_state)
  (i : nat) :
  (d <= 3)%nat -> prefix_ok d p -> burstable d p data ->
  slab_inv d (rev data) st -> (i < 8)%nat ->
  (length (routed d i (rev data)) < 32)%nat ->
  wf (S d) (child_prefix d p i) (DataNode (nth i (fst st) [])) /\
  subtrie_values (DataNode (nth i (fst st) [])) (child_prefix d p i) (S d)
  = routed d i (rev data).
Proof.
  intros Hd Hp (Hlen & Hpos & Hsorted & Hspan) (_ & Hch & _) Hi Hlt.
  assert (sparse (nth i (fst st) []) (rev (routed d i (rev data)))) as Hsp.
  { split; [|split; [|split]].
    - rewrite length_rev. apply Hch, Hi.
    - rewrite length_rev. lia.
    - apply Forall_rev. rewrite Forall_forall in *. intros x Hx.
      apply routed_In in Hx. destruct Hx as [Hx _]. apply in_rev in Hx. auto.
    - apply ascending_rev_descending, ssorted_filter.
      apply descending_rev_ascending, Hsorted. }
  split.
  - apply wf_data with (occ := rev (routed d i (rev data))).
    + unfold TRIE_MAX_DEPTH; lia.
    + exact Hsp.
    + rewrite length_rev. exact Hlt.
    + apply Forall_rev. rewrite Forall_forall in *. intros x Hx.
      apply routed_In in Hx. destruct Hx as [Hx Hk]. apply in_rev in Hx.
      pose proof (IDX_child d p x ltac:(lia) Hp (Hspan x Hx)) as Hc.
      pose proof (IDX_range x d ltac:(lia)).
      unfold child_prefix. rewrite <- Hk, Z2Nat.id by lia. exact Hc.
  - rewrite (values_data (S d) _ _ _ ltac:(lia) Hsp)
      by (rewrite length_rev; exact Hlt).
    apply rev_involutive.
Qed.

(** A travel node assembled from children that hold the routed values. *)
Lemma travel_of_children (d : nat) (p slab : Z) (link : list Node)
  (data : list Z) :
  (d <= 4)%nat -> prefix_ok d p -> length link = 8%nat ->
  (forall i, (i < 8)%nat ->
     wf (S d) (child_prefix d p i) (nth i link zero_block) /\
     Permutation (subtrie_values (nth i link zero_block) (child_prefix d p i) (S d))
       (routed d i data)) ->
  wf d p (TravelNode slab link) /\
  Permutation (subtrie_values (TravelNode slab link) p d) data.
Proof.
  intros Hd Hp Hlen Hch.
  assert (wf d p (TravelNode slab link)) as Hwf.
  { apply wf_travel; [unfold TRIE_MAX_DEPTH; lia | exact Hlen |].
    intros i Hi. apply Hch, Hi. }
  split; [exact Hwf|].
  rewrite values_travel by assumption.
  eapply Permutation_trans; [|apply (routed_partition d data); lia].
  apply flat_map_perm. intros i Hi. apply in_seq in Hi. apply Hch. lia.
Qed.

(** ** Redistribution into count nodes *)

Lemma count_occ_snoc (l : list Z) (v x : Z) :
  count_occ Z.eq_dec (l ++ [v]) x
  = (count_occ Z.eq_dec l x + if Z.eq_dec v x then 1 else 0)%nat.
Proof.
  rewrite count_occ_app. simpl. destruct (Z.eq_dec v x); reflexivity.
Qed.

Lemma count_inv_empty p : count_inv p [] (repeat (repeat 0 8) 8).
Proof.
  split; [reflexivity|]. intros i Hi.
  rewrite nth_repeat_any by exact Hi. split; [reflexivity|split].
  - intros b Hb. rewrite nth_repeat_any by lia. reflexivity.
  - intros b Hb. destruct (Nat.lt_ge_cases b 8) as [Hlt|Hge].
    + apply nth_repeat_any. exact Hlt.
    + apply nth_overflow. rewrite repeat_length. exact Hge.
Qed.

Lemma key_of_last_level (p v : Z) :
  prefix_ok 4 p -> in_span 4 p v ->
  let i := Z.to_nat (IDX_FROM_VALUE v 4) in
  let b := trie__get_count_node_bucket v in
  (i < 8)%nat /\ (b < 2)%nat /\ v = p + 2 * Z.of_nat i + Z.of_nat b.
Proof.
  intros Hp Hv i b.
  pose proof (IDX_range v 4 ltac:(lia)) as Hr.
  pose proof (IDX_child 4 p v ltac:(lia) Hp Hv) as Hc.
  assert (prefix_ok 5 (p + IDX_FROM_VALUE v 4 * span 5)) as Hp5
    by (apply (prefix_child 4); auto; lia).
  destruct (bucket_of_key _ v Hp5 Hc) as [Hb Hcases].
  unfold i, b, trie__get_count_node_bucket. rewrite Hb. rewrite span_last in *.
  rewrite !Z2Nat.id by lia. split; [lia|]. split; lia.
Qed.

Lemma burst_count_step_spec (p : Z) (done : list Z) (slab : list (list Z)) (v : Z) :
  prefix_ok 4 p -> in_span 4 p v -> count_inv p done slab ->
  (length done < 32)%nat ->
  count_inv p (done ++ [v]) (burst_count_step 4 slab v).
Proof.
  intros Hp Hv [Hlen Hch] Hdone.
  destruct (key_of_last_level p v Hp Hv) as (Hi0 & Hb0 & Hkey).
  unfold burst_count_step.
  set (i0 := Z.to_nat (IDX_FROM_VALUE v 4)) in *.
  set (b0 := trie__get_count_node_bucket v) in *.
  split; [rewrite length_store; exact Hlen|].
  intros i Hi. destruct (Hch i Hi) as (Hl & Hlow & Hhigh).
  destruct (Nat.eq_dec i0 i) as [<-|Hne].
  - rewrite nth_store_same by lia. split; [rewrite length_store; exact Hl|split].
    + intros b Hb. rewrite count_occ_snoc.
      destruct (Nat.eq_dec b0 b) as [<-|Hbne].
      * rewrite nth_store_same by lia. rewrite (Hlow b0 Hb0), <- Hkey.
        destruct (Z.eq_dec v v) as [_|]; [|congruence].
        pose proof (count_occ_bound Z.eq_dec v done).
        unfold u64. rewrite Z.mod_small; lia.
      * rewrite nth_store_other by exact Hbne. rewrite (Hlow b Hb).
        destruct (Z.eq_dec v (p + 2 * Z.of_nat i0 + Z.of_nat b)); [lia|].
        now rewrite Nat.add_0_r.
    + intros b Hb. rewrite nth_store_other by lia. apply Hhigh, Hb.
  - rewrite nth_store_other by exact Hne. split; [exact Hl|split].
    + intros b Hb. rewrite count_occ_snoc, (Hlow b Hb).
      destruct (Z.eq_dec v (p + 2 * Z.of_nat i + Z.of_nat b)); [lia|].
      now rewrite Nat.add_0_r.
    + exact Hhigh.
Qed.

Lemma burst_count_fold_spec (p : Z) (vs done : list Z) (slab : list (list Z)) :
  prefix_ok 4 p -> Forall (in_span 4 p) vs -> count_inv p done slab ->
  (length (done ++ vs) <= 32)%nat ->
  count_inv p (done ++ vs) (fold_left (burst_count_step 4) vs slab).
Proof.
  intros Hp. revert done slab.
  induction vs as [|v vs IH]; intros done slab Hvs Hinv Hlen.
  - rewrite app_nil_r. exact Hinv.
  - apply Forall_cons_iff in Hvs. destruct Hvs as [Hv Hvs].
    rewrite length_app in Hlen. simpl in Hlen. cbn [fold_left].
    replace (done ++ v :: vs) with ((done ++ [v]) ++ vs)
      by (rewrite <- app_assoc; reflexivity).
    apply IH; auto.
    + apply burst_count_step_spec; auto. lia.
    + rewrite !length_app. simpl. lia.
Qed.

Lemma count_occ_filter (f : Z -> bool) (l : list Z) (x : Z) :
  count_occ Z.eq_dec (filter f l) x
  = if f x then count_occ Z.eq_dec l x else 0%nat.
Proof.
  induction l as [|a l IH]; simpl; [now destruct (f x)|].
  destruct (Z.eq_dec a x) as [->|Hne].
  - destruct (f x) eqn:E; simpl; [|exact IH].
    destruct (Z.eq_dec x x); [|congruence]. rewrite IH. reflexivity.
  - destruct (f a); simpl; [|exact IH].
    destruct (Z.eq_dec a x); [contradiction | exact IH].
Qed.

(** A count node built by the redistribution holds the values routed to it. *)
Lemma counted_child (p : Z) (data : list Z) (slab : list (list Z)) (i : nat) :
  prefix_ok 4 p -> burstable 4 p data -> count_inv p (rev data) slab ->
  (i < 8)%nat ->
  wf 5 (child_prefix 4 p i) (CountNode (nth i slab [])) /\
  Permutation (subtrie_values (CountNode (nth i slab [])) (child_prefix 4 p i) 5)
    (routed 4 i data).
Proof.
  intros Hp (Hlen & Hpos & Hsorted & Hspan) [_ Hch] Hi.
  destruct (Hch i Hi) as (Hl & Hlow & Hhigh).
  assert (prefix_ok 5 (child_prefix 4 p i)) as Hp5
    by (apply (prefix_child 4); auto; lia).
  assert (forall b, 0 <= nth b (nth i slab []) 0 <= 32) as Hbound.
  { intros b. destruct (Nat.lt_ge_cases b 2) as [Hb|Hb].
    - rewrite (Hlow b Hb).
      pose proof (count_occ_bound Z.eq_dec
                    (p + 2 * Z.of_nat i + Z.of_nat b) (rev data)).
      rewrite length_rev in *. lia.
    - rewrite (Hhigh b Hb). lia. }
  split.
  - apply wf_count; auto.
    intros b. specialize (Hbound b). unfold USHRT_MAX. lia.
  - change 5%nat with TRIE_MAX_DEPTH. rewrite values_count by exact Hp5.
    apply (Permutation_count_occ Z.eq_dec). intros x.
    unfold routed. rewrite count_occ_filter, count_occ_app.
    rewrite (Hlow 0%nat ltac:(lia)), (Hlow 1%nat ltac:(lia)), !Nat2Z.id.
    rewrite !count_occ_rev. unfold child_prefix. rewrite span_last.
    replace (p + 2 * Z.of_nat i + Z.of_nat 0) with (p + Z.of_nat i * 2) by lia.
    replace (p + 2 * Z.of_nat i + Z.of_nat 1) with (p + Z.of_nat i * 2 + 1) by lia.
    set (q := p + Z.of_nat i * 2).
    assert (forall y, in_span 5 (p + Z.of_nat i * span 5) y ->
                      Z.to_nat (IDX_FROM_VALUE y 4) = i) as Hkey.
    { intros y Hy. rewrite (IDX_unique 4 p y (Z.of_nat i)); auto; lia. }
    assert (in_span 5 (p + Z.of_nat i * span 5) q /\
            in_span 5 (p + Z.of_nat i * span 5) (q + 1)) as [Hq Hq1]
      by (unfold in_span, q; rewrite span_last; lia).
    destruct (Z.eq_dec x q) as [->|Hxq]; [|destruct (Z.eq_dec x (q + 1)) as [->|Hxq1]].
    + rewrite (Hkey q Hq), Nat.eqb_refl.
      rewrite count_occ_repeat_eq by reflexivity.
      rewrite count_occ_repeat_neq by lia. lia.
    + rewrite (Hkey _ Hq1), Nat.eqb_refl.
      rewrite count_occ_repeat_neq by lia.
      rewrite count_occ_repeat_eq by reflexivity. lia.
    + rewrite !count_occ_repeat_neq by congruence.
      destruct (Nat.eqb_spec (Z.to_nat (IDX_FROM_VALUE x 4)) i) as [E|E];
        [|reflexivity].
      symmetry. apply count_occ_not_In. intros Hin.
      rewrite Forall_forall in Hspan. pose proof (Hspan x Hin) as Hx.
      pose proof (IDX_child 4 p x ltac:(lia) Hp Hx) as Hc.
      pose proof (IDX_range x 4 ltac:(lia)).
      assert (Z.of_nat i = IDX_FROM_VALUE x 4) as Ei by lia.
      unfold q in *. unfold in_span in Hc. rewrite span_last, <- Ei in Hc. lia.
Qed.

(** ** The burst *)

Section Burst.

Variable aligned_alloc : nat -> Z.

Lemma nth_map_in {A B} (f : A -> B) (l : list A) (i : nat) (da : A) (db : B) :
  (i < length l)%nat -> nth i (map f l) db = f (nth i l da).
Proof.
  intros Hi. rewrite (nth_indep _ db (f da)) by (rewrite length_map; exact Hi).
  apply map_nth.
Qed.

Lemma burst_rec_spec (fuel : nat) :
  forall d p data heap,
    (fuel + d = 5)%nat -> (d <= 4)%nat ->
    prefix_ok d p -> burstable d p data ->
    burst_outcome aligned_alloc d p data heap (burst_rec aligned_alloc fuel data d heap).
Proof.
  induction fuel as [|fuel IH]; intros d p data heap Hfuel Hd Hp Hb; [lia|].
  pose proof Hb as (Hlen & Hpos & Hsorted & Hspan).
  cbn [burst_rec].
  destruct (Z.eqb_spec (aligned_alloc heap) 0) as [Hnull|Hnn].
  { split; [reflexivity|]. exists heap. split; [lia | exact Hnull]. }
  assert (rev (firstn 32 data) = rev data) as Hall
    by (rewrite <- Hlen, firstn_all; reflexivity).
  destruct (Nat.eqb_spec d (TRIE_MAX_DEPTH - 1)) as [->|Hd4].
  - (* the children are count nodes *)
    change (TRIE_MAX_DEPTH - 1)%nat with 4%nat in *.
    rewrite burst_count_loop_fold, Hall by lia.
    set (slab := fold_left (burst_count_step 4) (rev data) (repeat (repeat 0 8) 8)).
    assert (count_inv p (rev data) slab) as Hinv.
    { apply (burst_count_fold_spec p (rev data) []); auto.
      - apply Forall_rev, Hspan.
      - apply count_inv_empty.
      - simpl. rewrite length_rev. lia. }
    exists (map CountNode slab). cbn [fst snd].
    destruct Hinv as [Hslab Hch].
    split; [reflexivity|]. split; [exact Hnn|]. split; [now rewrite length_map|].
    split; [lia|]. intros i Hi.
    rewrite (nth_map_in CountNode slab i []) by lia.
    apply counted_child; auto. split; assumption.
  - (* the children are data nodes *)
    unfold TRIE_MAX_DEPTH in Hd4.
    rewrite burst_data_loop_redistribute, Hall by lia.
    destruct (redistribute_spec d (rev data) [] empty_slab) as (st & Hrun & Hinv).
    + lia.
    + apply slab_inv_empty.
    + simpl. rewrite length_rev. lia.
    + apply descending_rev_ascending, Hsorted.
    + apply Forall_rev. eapply Forall_impl; [|exact Hpos]. simpl; lia.
    + simpl app in Hinv. unfold empty_slab in Hrun. rewrite Hrun. cbn [bind].
      pose proof Hinv as (Hslab & Hch & Hsome & Hnone).
      destruct (snd st) as [i0|] eqn:Entb.
      * (* one child received everything: it is burst in turn *)
        destruct (Hsome i0 eq_refl) as [Hi0 Hfull].
        assert (routed d i0 (rev data) = rev data) as Hrouted
          by (apply routed_all; rewrite Hfull, length_rev; lia).
        assert (nth i0 (fst st) [] = data) as Hchild.
        { rewrite (Hch i0 Hi0), Hrouted, length_rev, Hlen, rev_involutive.
          reflexivity. }
        rewrite Hchild.
        assert (routed d i0 data = data) as Hrouted'.
        { rewrite <- (rev_involutive data) at 1. rewrite routed_rev, Hrouted.
          apply rev_involutive. }
        assert (burstable (S d) (child_prefix d p i0) data) as Hb'.
        { split; [|split; [|split]]; auto.
          rewrite Forall_forall in *. intros x Hx.
          pose proof (IDX_child d p x ltac:(lia) Hp (Hspan x Hx)) as Hc.
          pose proof (IDX_range x d ltac:(lia)).
          assert (Z.to_nat (IDX_FROM_VALUE x d) = i0) as Hk.
          { rewrite <- Hrouted' in Hx. apply routed_In in Hx. tauto. }
          unfold child_prefix. rewrite <- Hk, Z2Nat.id by lia. exact Hc. }
        assert (prefix_ok (S d) (child_prefix d p i0)) as Hp'
          by (apply prefix_child; auto; lia).
        pose proof (IH (S d) (child_prefix d p i0) data (S heap)
                      ltac:(lia) ltac:(lia) Hp' Hb') as Hrec.
        destruct (burst_rec aligned_alloc fuel data (S d) (S heap))
          as [[child heap']|f]; cbn [bind burst_outcome fst snd] in *.
        -- destruct Hrec as (link' & -> & Hnn' & Hlen' & Hheap & Hch').
           exists (store (map DataNode (fst st)) i0
                     (TravelNode (aligned_alloc (S heap)) link')).
           split; [reflexivity|]. split; [exact Hnn|].
           split; [now rewrite length_store, length_map|]. split; [lia|].
           intros i Hi. destruct (Nat.eq_dec i0 i) as [<-|Hne].
           ++ rewrite nth_store_same by (rewrite length_map; lia).
              rewrite Hrouted'.
              apply (travel_of_children (S d)); auto; lia.
           ++ rewrite nth_store_other by exact Hne.
              rewrite (nth_map_in DataNode (fst st) i []) by lia.
              assert (routed d i (rev data) = []) as Hnil
                by (apply (routed_elsewhere d i0); auto).
              destruct (redistributed_child d p data st i ltac:(lia) Hp Hb Hinv Hi)
                as [Hwf Hval]; [rewrite Hnil; simpl; lia|].
              split; [exact Hwf|]. rewrite Hval, routed_rev.
              apply Permutation_sym, Permutation_rev.
        -- destruct Hrec as (-> & k & Hk & Hnull). split; [reflexivity|].
           exists k. split; [lia | exact Hnull].
      * (* no child is full *)
        exists (map DataNode (fst st)). cbn [fst snd].
        split; [reflexivity|]. split; [exact Hnn|].
        split; [now rewrite length_map|]. split; [lia|].
        intros i Hi. rewrite (nth_map_in DataNode (fst st) i []) by lia.
        destruct (redistributed_child d p data st i ltac:(lia) Hp Hb Hinv Hi)
          as [Hwf Hval]; [apply Hnone; reflexivity|].
        split; [exact Hwf|]. rewrite Hval, routed_rev.
        apply Permutation_sym, Permutation_rev.
Qed.

Lemma burst_spec (d : nat) (p : Z) (data : list Z) (heap : nat) :
  (d <= 4)%nat -> prefix_ok d p -> burstable d p data ->
  burst_outcome aligned_alloc d p data heap (trie__burst_data_node aligned_alloc data d heap).
Proof.
  intros Hd Hp Hb. unfold trie__burst_data_node.
  apply burst_rec_spec; auto. unfold TRIE_MAX_DEPTH. lia.
Qed.

End Burst.

(** ** Insertion below a node *)

Section Insert.

Variable aligned_alloc : nat -> Z.

Lemma count_occ_flat_map_ge (L : nat -> list Z) (s : list nat) (i : nat) (x : Z) :
  In i s ->
  (count_occ Z.eq_dec (L i) x <= count_occ Z.eq_dec (flat_map L s) x)%nat.
Proof.
  induction s as [|a s IH]; intros Hin; [destruct Hin|].
  simpl. rewrite count_occ_app. destruct Hin as [->|Hin]; [lia|].
  specialize (IH Hin). lia.
Qed.

Lemma insert_data_node (d : nat) (p : Z) (data occ : list Z) (v : Z) (heap : nat) :
  (d <= 4)%nat -> prefix_ok d p ->
  sparse data occ -> (length occ < 32)%nat -> Forall (in_span d p) occ ->
  in_span d p v -> 0 < v < 65536 ->
  insert_outcome aligned_alloc d p (DataNode data) v heap
    (data' <- data_node_insert data v ;;
     if trie__data_node_is_full data'
     then trie__burst_data_node aligned_alloc data' d heap
     else Done (DataNode data', heap)).
Proof.
  intros Hd Hp Hsp Hlen Hspan Hv Hv0.
  destruct (data_node_insert_spec data occ v Hsp Hlen Hv0)
    as (hi & lo & Hocc & Hhi & Hlo & Hins & Hsp').
  rewrite Hins. cbn [bind].
  pose proof (values_data d p data occ Hd Hsp Hlen) as Hold.
  set (occ' := hi ++ v :: lo) in *.
  set (data' := repeat 0 (31 - length occ) ++ occ') in *.
  assert (Permutation occ' (v :: rev occ)) as Hperm.
  { unfold occ'. subst occ.
    eapply Permutation_trans; [apply Permutation_sym, Permutation_middle|].
    apply perm_skip, Permutation_rev. }
  assert (Forall (in_span d p) occ') as Hspan'.
  { unfold occ'. subst occ. apply Forall_app in Hspan. destruct Hspan as [H1 H2].
    apply Forall_app; split; [exact H1 | constructor; assumption]. }
  assert (length occ' = S (length occ)) as Hlen'
    by (unfold occ'; subst occ; rewrite !length_app; simpl; lia).
  unfold trie__data_node_is_full.
  destruct (Nat.eq_dec (length occ) 31) as [Hfull|Hroom].
  - (* the node became full: burst it *)
    destruct (sparse_full data' occ' Hsp' ltac:(lia)) as [Hd' Hnz].
    destruct (Z.eqb_spec (nth 0 data' 0) 0) as [|_]; [contradiction|].
    rewrite Hd'.
    assert (burstable d p occ') as Hb.
    { destruct Hsp' as (_ & _ & Hpos & Hsorted).
      split; [lia|]. split; [exact Hpos|]. split; assumption. }
    pose proof (burst_spec aligned_alloc d p occ' heap Hd Hp Hb) as Hout.
    destruct (trie__burst_data_node aligned_alloc occ' d heap) as [r|f];
      cbn [burst_outcome insert_outcome] in *.
    + destruct Hout as (link & Hr & _ & Hl & Hheap & Hch).
      rewrite Hr, Hold.
      destruct (travel_of_children d p (aligned_alloc heap) link occ' Hd Hp Hl Hch)
        as [Hwf Hval].
      split; [exact Hwf|]. split; [|lia].
      eapply Permutation_trans; [exact Hval | exact Hperm].
    + right. exact Hout.
  - (* there is room left *)
    rewrite (sparse_slot0 data' occ' Hsp') by lia. rewrite Z.eqb_refl.
    cbn [insert_outcome fst snd]. rewrite Hold. split; [|split; [|lia]].
    + apply wf_data with (occ := occ'); auto.
      * unfold TRIE_MAX_DEPTH; lia.
      * lia.
    + rewrite (values_data d p data' occ' Hd Hsp') by lia.
      eapply Permutation_trans; [apply Permutation_sym, Permutation_rev|].
      exact Hperm.
Qed.

Lemma insert_count_node (p : Z) (count : list Z) (v : Z) (heap : nat) :
  prefix_ok 5 p -> wf 5 p (CountNode count) -> in_span 5 p v ->
  insert_outcome aligned_alloc 5 p (CountNode count) v heap
    (let b := trie__get_count_node_bucket v in
     if nth b count 0 =? USHRT_MAX then Abort CounterCeiling
     else Done (CountNode (store count b (u64 (nth b count 0 + 1))), heap)).
Proof.
  intros Hp Hwf Hv.
  inversion Hwf as [| |p' count' Hlen Hbound Hzero]; subst.
  destruct (bucket_of_key p v Hp Hv) as [Hb Hcases].
  change 5%nat with TRIE_MAX_DEPTH.
  unfold trie__get_count_node_bucket. rewrite Hb. cbv zeta.
  assert (Z.to_nat (v - p) < 2)%nat as Hb2 by lia.
  set (b := Z.to_nat (v - p)) in *.
  assert (count_occ Z.eq_dec
            (repeat p (Z.to_nat (nth 0 count 0))
             ++ repeat (p + 1) (Z.to_nat (nth 1 count 0))) v
          = Z.to_nat (nth b count 0)) as Hocc.
  { rewrite count_occ_app. destruct Hcases as [->| ->].
    - replace b with 0%nat by (unfold b; lia).
      rewrite count_occ_repeat_eq by reflexivity.
      rewrite count_occ_repeat_neq by lia. lia.
    - replace b with 1%nat by (unfold b; lia).
      rewrite count_occ_repeat_neq by lia.
      rewrite count_occ_repeat_eq by reflexivity. lia. }
  destruct (Z.eqb_spec (nth b count 0) USHRT_MAX) as [Hmax|Hroom];
    cbn [insert_outcome fst snd].
  - left. split; [reflexivity|].
    rewrite values_count, Hocc, Hmax by exact Hp. unfold USHRT_MAX. lia.
  - pose proof (Hbound b) as Hbb. unfold USHRT_MAX in *.
    assert (u64 (nth b count 0 + 1) = nth b count 0 + 1) as ->
      by (apply Z.mod_small; lia).
    split; [|split; [|lia]].
    + apply wf_count.
      * now rewrite length_store.
      * intros k. destruct (Nat.eq_dec b k) as [<-|Hne].
        -- rewrite nth_store_same by lia. unfold USHRT_MAX. lia.
        -- rewrite nth_store_other by exact Hne. apply Hbound.
      * intros k Hk. rewrite nth_store_other by lia. apply Hzero, Hk.
    + rewrite !values_count by exact Hp.
      destruct Hcases as [->| ->].
      * replace b with 0%nat in * by (unfold b; lia).
        rewrite nth_store_same, nth_store_other by lia.
        rewrite Z2Nat.inj_add, Nat.add_comm by lia. reflexivity.
      * replace b with 1%nat in * by (unfold b; lia).
        rewrite nth_store_same, nth_store_other by lia.
        rewrite Z2Nat.inj_add, Nat.add_comm by lia.
        apply Permutation_sym. cbn [Z.to_nat Pos.to_nat Pos.iter_op Nat.add repeat].
        apply Permutation_middle.
Qed.

Lemma insert_rec_spec (d : nat) (p : Z) (n : Node) :
  wf d p n ->
  forall v heap,
    prefix_ok d p -> in_span d p v -> 0 < v < 65536 ->
    insert_outcome aligned_alloc d p n v heap
      (insert_rec aligned_alloc (S TRIE_MAX_DEPTH - d) n d v heap).
Proof.
  induction 1 as [d p data occ Hd Hsp Hlen Hspan
                 | d p slab link Hd Hlen Hch IH
                 | p count Hlen Hc Hz]; intros v heap Hp Hv Hv0.
  - unfold TRIE_MAX_DEPTH in Hd.
    replace (S TRIE_MAX_DEPTH - d)%nat with (S (S TRIE_MAX_DEPTH - S d))
      by (unfold TRIE_MAX_DEPTH; lia).
    cbn [insert_rec].
    rewrite classify_data
      by (unfold TRIE_MAX_DEPTH; try lia; eapply sparse_slot0; eauto).
    apply (insert_data_node d p data occ); auto. lia.
  - unfold TRIE_MAX_DEPTH in Hd.
    assert (wf d p (TravelNode slab link)) as Hwf
      by (apply wf_travel; auto).
    replace (S TRIE_MAX_DEPTH - d)%nat with (S (S TRIE_MAX_DEPTH - S d))
      by (unfold TRIE_MAX_DEPTH; lia).
    cbn [insert_rec]. rewrite classify_travel by (unfold TRIE_MAX_DEPTH; lia).
    unfold trie__follow_travel_node.
    pose proof (IDX_range v d ltac:(lia)) as Hr.
    pose proof (IDX_child d p v ltac:(lia) Hp Hv) as Hc.
    set (i := Z.to_nat (IDX_FROM_VALUE v d)) in *.
    assert (i < 8)%nat as Hi by (unfold i; lia).
    assert (child_prefix d p i = p + IDX_FROM_VALUE v d * span (S d)) as Hpi
      by (unfold child_prefix, i; rewrite Z2Nat.id by lia; reflexivity).
    assert (prefix_ok (S d) (child_prefix d p i)) as Hpc
      by (apply prefix_child; auto; lia).
    rewrite <- Hpi in Hc.
    pose proof (IH i Hi v heap Hpc Hc Hv0) as Hrec.
    pose proof (values_travel d p slab link Hwf Hp) as Hold.
    destruct (insert_rec aligned_alloc (S TRIE_MAX_DEPTH - S d)
                (nth i link zero_block) (S d) v heap) as [[child heap']|f];
      cbn [bind insert_outcome fst snd] in *.
    + destruct Hrec as (Hwfc & Hperm & Hheap).
      assert (wf d p (TravelNode slab (store link i child))) as Hwf'.
      { apply wf_travel; [unfold TRIE_MAX_DEPTH; lia | now rewrite length_store |].
        intros j Hj. destruct (Nat.eq_dec i j) as [<-|Hne].
        - rewrite nth_store_same by lia. exact Hwfc.
        - rewrite nth_store_other by exact Hne. apply Hch, Hj. }
      split; [exact Hwf'|]. split; [|exact Hheap].
      rewrite Hold, (values_travel d p slab _ Hwf' Hp).
      apply (flat_map_perm_at _ _ i).
      * apply seq_NoDup.
      * apply in_seq. lia.
      * rewrite nth_store_same by lia. exact Hperm.
      * intros j Hj. rewrite nth_store_other by congruence. reflexivity.
    + destruct Hrec as [[-> Hceil]|Hfail]; [left | right; exact Hfail].
      split; [reflexivity|]. rewrite Hold.
      pose proof (count_occ_flat_map_ge
                    (fun j => subtrie_values (nth j link zero_block)
                                (child_prefix d p j) (S d))
                    (seq 0 8) i v ltac:(apply in_seq; lia)).
      cbv beta in *. unfold child_prefix in *. lia.
  - change (S TRIE_MAX_DEPTH - TRIE_MAX_DEPTH)%nat with 1%nat.
    cbn [insert_rec]. rewrite classify_count.
    apply insert_count_node; auto. apply wf_count; auto.
Qed.

End Insert.

(** ** The oracle *)

Lemma flat_map_ext_seq (f g : nat -> list Z) (a n : nat) :
  (forall i, (a <= i < a + n)%nat -> f i = g i) ->
  flat_map f (seq a n) = flat_map g (seq a n).
Proof.
  revert a; induction n as [|n IH]; intros a H; [reflexivity|].
  cbn [seq flat_map]. rewrite (H a) by lia. f_equal. apply IH.
  intros i Hi. apply H. lia.
Qed.

Lemma oracle_inv_init : oracle_inv [] oracle_init.
Proof.
  split; [apply repeat_length|]. intros i Hi.
  unfold oracle_init. rewrite nth_repeat_any by exact Hi. reflexivity.
Qed.

Lemma oracle_insert_spec (hist array : list Z) (v : Z) :
  oracle_inv hist array -> 0 <= v < 65536 ->
  oracle_inv (hist ++ [v]) (oracle_insert array v).
Proof.
  intros [Hlen Hnth] Hv. unfold oracle_insert.
  assert (Z.to_nat v < Z.to_nat (USHRT_MAX + 1))%nat as Hi
    by (unfold USHRT_MAX; lia).
  split; [now rewrite length_store|]. intros i Hin.
  rewrite count_occ_snoc. destruct (Nat.eq_dec (Z.to_nat v) i) as [<-|Hne].
  - rewrite nth_store_same by lia. rewrite (Hnth _ Hi), Z2Nat.id by lia.
    destruct (Z.eq_dec v v); [|congruence].
    unfold u64. rewrite Nat2Z.inj_add, Zplus_mod_idemp_l. reflexivity.
  - rewrite nth_store_other by exact Hne. rewrite (Hnth i Hin).
    destruct (Z.eq_dec v (Z.of_nat i)); [lia|]. now rewrite Nat.add_0_r.
Qed.

Lemma oracle_fold_spec (values hist array : list Z) :
  oracle_inv hist array -> Forall (fun v => 0 <= v < 65536) values ->
  oracle_inv (hist ++ values) (fold_left oracle_insert values array).
Proof.
  revert hist array. induction values as [|v values IH]; intros hist array Hinv Hr.
  - now rewrite app_nil_r.
  - apply Forall_cons_iff in Hr. destruct Hr as [Hv Hr]. cbn [fold_left].
    replace (hist ++ v :: values) with ((hist ++ [v]) ++ values)
      by (rewrite <- app_assoc; reflexivity).
    apply IH; [apply oracle_insert_spec|]; assumption.
Qed.

Lemma count_occ_counts (c : nat -> nat) (a n : nat) (x : Z) :
  count_occ Z.eq_dec
    (flat_map (fun i => repeat (Z.of_nat i) (c i)) (seq a n)) x
  = if (Z.of_nat a <=? x) && (x <? Z.of_nat (a + n)) then c (Z.to_nat x)
    else 0%nat.
Proof.
  revert a. induction n as [|n IH]; intros a.
  - simpl. rewrite Nat.add_0_r.
    destruct (Z.leb_spec (Z.of_nat a) x); destruct (Z.ltb_spec x (Z.of_nat a));
      simpl; auto; lia.
  - cbn [seq flat_map]. rewrite count_occ_app, IH.
    destruct (Z.eq_dec x (Z.of_nat a)) as [->|Hne].
    + rewrite count_occ_repeat_eq by reflexivity. rewrite Nat2Z.id.
      destruct (Z.leb_spec (Z.of_nat (S a)) (Z.of_nat a)); [lia|].
      destruct (Z.leb_spec (Z.of_nat a) (Z.of_nat a)); [|lia].
      destruct (Z.ltb_spec (Z.of_nat a) (Z.of_nat (a + S n))); [|lia].
      simpl. lia.
    + rewrite count_occ_repeat_neq by exact Hne.
      replace (S a + n)%nat with (a + S n)%nat by lia.
      destruct (Z.leb_spec (Z.of_nat (S a)) x);
        destruct (Z.leb_spec (Z.of_nat a) x);
        destruct (Z.ltb_spec x (Z.of_nat (a + S n))); simpl; auto; lia.
Qed.

Lemma counts_ascending (c : nat -> nat) (a n : nat) :
  StronglySorted Z.le (flat_map (fun i => repeat (Z.of_nat i) (c i)) (seq a n)).
Proof.
  apply (flat_map_ascending _ 0 1); [lia| |].
  - intros i _. apply ssorted_repeat. lia.
  - intros i _. rewrite Forall_forall. intros x Hx. apply repeat_spec in Hx. lia.
Qed.

(** The oracle prints the inserted values in ascending order. *)
Lemma oracle_run_spec (values : list Z) :
  Forall (fun v => 0 <= v < 65536) values ->
  (forall v, Z.of_nat (count_occ Z.eq_dec values v) < 2 ^ 64) ->
  StronglySorted Z.le (oracle_run values) /\
  Permutation (oracle_run values) values.
Proof.
  intros Hr Hc. unfold oracle_run.
  destruct (oracle_fold_spec values [] oracle_init oracle_inv_init Hr)
    as [Hlen Hnth].
  simpl app in Hnth. unfold oracle_print.
  set (array := fold_left oracle_insert values oracle_init) in *.
  set (N := Z.to_nat (USHRT_MAX + 1)) in *.
  assert (Z.of_nat N = 65536) as HN by reflexivity.
  clearbody N array.
  assert (flat_map (fun i => repeat (Z.of_nat i) (Z.to_nat (nth i array 0)))
            (seq 0 N)
          = flat_map (fun i => repeat (Z.of_nat i)
                                 (count_occ Z.eq_dec values (Z.of_nat i)))
              (seq 0 N)) as ->.
  { apply flat_map_ext_seq. intros i Hi. rewrite (Hnth i ltac:(lia)).
    unfold u64. rewrite Z.mod_small by (specialize (Hc (Z.of_nat i)); lia).
    now rewrite Nat2Z.id. }
  split; [apply counts_ascending|].
  apply (Permutation_count_occ Z.eq_dec). intros x.
  rewrite (count_occ_counts (fun i => count_occ Z.eq_dec values (Z.of_nat i))).
  simpl Z.of_nat. rewrite HN.
  destruct (Z.leb_spec 0 x); destruct (Z.ltb_spec x 65536); simpl;
    try (rewrite Z2Nat.id by lia; reflexivity);
    symmetry; apply count_occ_not_In; intros Hin;
    rewrite Forall_forall in Hr; specialize (Hr x Hin); lia.
Qed.

(** ** The container as a whole *)

Section Container.

Variable aligned_alloc : nat -> Z.

Lemma filter_nonzero_snoc (hist : list Z) (v : Z) :
  filter (fun x => negb (x =? 0)) (hist ++ [v])
  = filter (fun x => negb (x =? 0)) hist ++ (if v =? 0 then [] else [v]).
Proof.
  rewrite filter_app. simpl. destruct (v =? 0); reflexivity.
Qed.

Lemma holds_init heap s :
  trie_init aligned_alloc heap = Done s -> holds (fst s) [].
Proof.
  unfold trie_init. destruct (aligned_alloc heap =? 0); [discriminate|].
  intros [= <-]. cbn [fst]. split; [|split].
  - apply wf_data with (occ := []).
    + unfold TRIE_MAX_DEPTH; lia.
    + apply sparse_empty.
    + simpl; lia.
    + constructor.
  - cbn [base_node]. unfold zero_block.
    rewrite (values_data 0 0 _ [] ltac:(lia) sparse_empty) by (simpl; lia).
    constructor.
  - reflexivity.
Qed.

Lemma trie_insert_value_spec (t : sTrie) (hist : list Z) (v : Z) (heap : nat) :
  holds t hist -> 0 <= v < 65536 ->
  step_outcome aligned_alloc hist v heap (trie_insert_value aligned_alloc t v heap).
Proof.
  intros (Hwf & Hperm & Hz) Hv. unfold trie_insert_value.
  destruct (Z.eqb_spec v 0) as [->|Hnz].
  - cbn [step_outcome fst snd base_node number_of_zeros]. split; [|lia].
    split; [exact Hwf|]. split.
    + rewrite filter_nonzero_snoc. cbn. now rewrite app_nil_r.
    + rewrite Hz, count_occ_snoc. destruct (Z.eq_dec 0 0); [|congruence].
      unfold u64. rewrite Nat2Z.inj_add, Zplus_mod_idemp_l. reflexivity.
  - pose proof (insert_rec_spec aligned_alloc 0 0 (base_node t) Hwf v heap
                  prefix_root ltac:(unfold in_span; cbn; lia) ltac:(lia)) as Hout.
    change (S TRIE_MAX_DEPTH - 0)%nat with (S TRIE_MAX_DEPTH) in Hout.
    destruct (insert_rec aligned_alloc (S TRIE_MAX_DEPTH) (base_node t) 0 v heap)
      as [r|f]; cbn [bind insert_outcome step_outcome fst snd] in *.
    + destruct Hout as (Hwf' & Hperm' & Hheap). split; [|exact Hheap].
      split; [exact Hwf'|]. cbn [base_node number_of_zeros]. split.
      * rewrite filter_nonzero_snoc.
        destruct (Z.eqb_spec v 0); [contradiction|].
        eapply Permutation_trans; [exact Hperm'|].
        eapply Permutation_trans; [apply perm_skip, Hperm|].
        apply Permutation_cons_append.
      * rewrite Hz, count_occ_snoc. destruct (Z.eq_dec v 0); [contradiction|].
        now rewrite Nat.add_0_r.
    + destruct Hout as [[-> Hceil]|Hfail]; [left | right; exact Hfail].
      split; [reflexivity|]. split; [exact Hnz|].
      rewrite (proj1 (Permutation_count_occ Z.eq_dec _ _) Hperm v) in Hceil.
      rewrite count_occ_filter in Hceil.
      destruct (Z.eqb_spec v 0); [contradiction|]. exact Hceil.
Qed.

Lemma count_occ_app_le (a b : list Z) (x : Z) :
  (count_occ Z.eq_dec a x <= count_occ Z.eq_dec (a ++ b) x)%nat.
Proof. rewrite count_occ_app. lia. Qed.

Lemma insert_all_spec (values hist : list Z) (t : sTrie) (heap : nat) :
  (forall k, aligned_alloc k <> 0) ->
  holds t hist ->
  Forall (fun v => 0 <= v < 65536) values ->
  (forall v, v <> 0 ->
     Z.of_nat (count_occ Z.eq_dec (hist ++ values) v) <= USHRT_MAX) ->
  exists s, insert_all aligned_alloc values t heap = Done s /\
            holds (fst s) (hist ++ values).
Proof.
  intros Halloc. revert hist t heap.
  induction values as [|v values IH]; intros hist t heap Hh Hr Hc.
  - exists (t, heap). rewrite app_nil_r. split; [reflexivity | exact Hh].
  - apply Forall_cons_iff in Hr. destruct Hr as [Hv Hr].
    pose proof (trie_insert_value_spec t hist v heap Hh Hv) as Hstep.
    cbn [insert_all].
    replace (hist ++ v :: values) with ((hist ++ [v]) ++ values) in *
      by (rewrite <- app_assoc; reflexivity).
    destruct (trie_insert_value aligned_alloc t v heap) as [s|f];
      cbn [bind step_outcome] in *.
    + destruct Hstep as [Hh' _]. apply IH; assumption.
    + exfalso. destruct Hstep as [(_ & Hnz & Hceil)|(_ & k & _ & Hk)].
      * specialize (Hc v Hnz).
        pose proof (count_occ_app_le (hist ++ [v]) values v).
        rewrite count_occ_snoc in *. destruct (Z.eq_dec v v); [|congruence].
        lia.
      * exact (Halloc k Hk).
Qed.

Lemma zeros_then_rest (l : list Z) :
  Permutation
    (repeat 0 (count_occ Z.eq_dec l 0) ++ filter (fun v => negb (v =? 0)) l) l.
Proof.
  induction l as [|a l IH]; [constructor|]. simpl.
  destruct (Z.eq_dec a 0) as [->|Hne].
  - simpl. apply perm_skip, IH.
  - destruct (Z.eqb_spec a 0); [contradiction|]. simpl.
    eapply Permutation_trans; [apply Permutation_sym, Permutation_middle|].
    apply perm_skip, IH.
Qed.

(** What [trie_print_values] writes for a container that holds [hist]. *)
Lemma print_values_spec (t : sTrie) (hist : list Z) :
  holds t hist -> Z.of_nat (count_occ Z.eq_dec hist 0) < 2 ^ 64 ->
  exists out, trie_print_values t = Done out /\
    StronglySorted Z.le out /\ Permutation out hist.
Proof.
  intros (Hwf & Hperm & Hz) Hzeros.
  destruct (print_wf 0 0 (base_node t) Hwf prefix_root) as (Hprint & Hsorted & Hspan).
  unfold trie_print_values. rewrite Hprint. cbn [bind].
  eexists; split; [reflexivity|].
  rewrite Hz. unfold u64. rewrite Z.mod_small, Nat2Z.id by lia. split.
  - apply ssorted_app. split; [apply ssorted_repeat; lia|]. split; [exact Hsorted|].
    intros x y Hx Hy. apply repeat_spec in Hx. subst x.
    rewrite Forall_forall in Hspan. apply Hspan in Hy. unfold in_span in Hy. lia.
  - eapply Permutation_trans; [apply Permutation_app_head, Hperm|].
    apply zeros_then_rest.
Qed.

Lemma within_ceilings_perm (l l' : list Z) :
  Permutation l l' -> within_ceilings l -> within_ceilings l'.
Proof.
  intros HP (Hr & Hc & Hz).
  pose proof (proj1 (Permutation_count_occ Z.eq_dec _ _) HP) as Hcount.
  split; [|split].
  - eapply Permutation_Forall; eauto.
  - intros v Hv. rewrite <- Hcount. apply Hc, Hv.
  - rewrite <- Hcount. exact Hz.
Qed.

Lemma enumerate_after_spec (values : list Z) (heap : nat) :
  (forall k, aligned_alloc k <> 0) -> within_ceilings values ->
  exists out, enumerate_after aligned_alloc values heap = Done out /\
    StronglySorted Z.le out /\ Permutation out values.
Proof.
  intros Halloc (Hr & Hc & Hz). unfold enumerate_after.
  destruct (trie_init aligned_alloc heap) as [s0|f] eqn:Einit.
  - pose proof (holds_init heap s0 Einit) as Hh0.
    destruct (insert_all_spec values [] (fst s0) (snd s0) Halloc Hh0 Hr Hc)
      as (s & Hrun & Hh).
    cbn [bind]. rewrite Hrun. cbn [bind]. simpl app in Hh.
    apply (print_values_spec (fst s) values Hh Hz).
  - exfalso. unfold trie_init in Einit.
    destruct (Z.eqb_spec (aligned_alloc heap) 0) as [E|E]; [|discriminate].
    exact (Halloc heap E).
Qed.

End Container.

(** ** Reachable states *)

Lemma wf_subnode (d : nat) (n : Node) (d' : nat) (n' : Node) :
  subnode d n d' n' -> forall p, wf d p n -> exists p', wf d' p' n'.
Proof.
  induction 1 as [d n | d slab link i d' n' Hi Hsub IH]; intros p Hwf.
  - exists p. exact Hwf.
  - inversion Hwf as [| d0 p0 slab0 link0 Hd Hlen Hch |]; subst.
    apply (IH (p + Z.of_nat i * span (S d))). apply Hch. lia.
Qed.

Lemma reachable_holds (aligned_alloc : nat -> Z) (s : sTrie * nat) :
  reachable aligned_alloc s -> exists hist, holds (fst s) hist.
Proof.
  induction 1 as [heap s Hinit | s v s' Hreach [hist Hh] Hv Hstep].
  - exists []. eapply holds_init; eauto.
  - exists (hist ++ [v]).
    pose proof (trie_insert_value_spec aligned_alloc (fst s) hist v (snd s) Hh Hv)
      as Hout.
    rewrite Hstep in Hout. apply Hout.
Qed.

Lemma reachable_wf (aligned_alloc : nat -> Z) (s : sTrie * nat) (d : nat) (n : Node) :
  reachable aligned_alloc s -> subnode 0 (base_node (fst s)) d n ->
  exists p, wf d p n.
Proof.
  intros Hreach Hsub. destruct (reachable_holds _ _ Hreach) as (hist & Hwf & _).
  eapply wf_subnode; eauto.
Qed.

(** ** Which child receives the whole node *)

Lemma full_node_of_burstable d p data : burstable d p data -> full_node data.
Proof. intros (H1 & H2 & H3 & _). repeat split; assumption. Qed.

Lemma redistribute_full (d : nat) (data : list Z) :
  (d <= 4)%nat -> full_node data ->
  exists st, burst_data_loop data d 31 empty_slab = Done st /\
             slab_inv d (rev data) st.
Proof.
  intros Hd (Hlen & Hpos & Hsorted).
  rewrite burst_data_loop_redistribute by lia.
  replace (firstn 32 data) with data by (rewrite <- Hlen, firstn_all; reflexivity).
  apply (redistribute_spec d (rev data) [] empty_slab Hd (slab_inv_empty d)).
  - simpl. rewrite length_rev. lia.
  - apply descending_rev_ascending, Hsorted.
  - apply Forall_rev. eapply Forall_impl; [|exact Hpos]. simpl; lia.
Qed.

Lemma all_routed_filter (d i : nat) (l : list Z) :
  all_routed_to d i l <-> routed d i l = l.
Proof.
  split.
  - intros H. induction l as [|v l IH]; [reflexivity|].
    rewrite routed_cons, (H v) by (now left). rewrite Nat.eqb_refl. f_equal.
    apply IH. intros w Hw. apply H. now right.
  - intros H v Hv. rewrite <- H in Hv. apply routed_In in Hv. tauto.
Qed.

Lemma node_to_burst_spec (d : nat) (data : list Z) (st : burst_state) :
  full_node data -> slab_inv d (rev data) st ->
  (forall i, all_routed_to d i data ->
     snd st = Some i /\ nth i (fst st) [] = data /\
     forall j, (j < 8)%nat -> j <> i -> nth j (fst st) [] = repeat 0 32) /\
  ((forall i, ~ all_routed_to d i data) ->
     snd st = None /\ forall j, (j < 8)%nat -> nth 0 (nth j (fst st) []) 0 = 0).
Proof.
  intros (Hlen & Hpos & Hsorted) (Hslab & Hch & Hsome & Hnone).
  assert (forall i, all_routed_to d i data <-> routed d i (rev data) = rev data)
    as Hall.
  { intros i. rewrite all_routed_filter, routed_rev. split; [now intros ->|].
    intros H. apply (f_equal (@rev Z)) in H. now rewrite !rev_involutive in H. }
  assert (forall i, snd st = Some i -> all_routed_to d i data) as Hsome'.
  { intros i Hi. apply Hall, routed_all. destruct (Hsome i Hi) as [_ ->].
    rewrite length_rev. lia. }
  split.
  - intros i Hi. pose proof (proj1 (Hall i) Hi) as Hr.
    assert (snd st = Some i) as Hntb.
    { destruct (snd st) as [j|] eqn:E.
      - f_equal. pose proof (Hsome' j eq_refl) as Hj.
        destruct data as [|v data]; [discriminate|].
        rewrite <- (Hi v), <- (Hj v) by (now left). reflexivity.
      - specialize (Hnone eq_refl i). rewrite Hr, length_rev in Hnone. lia. }
    destruct (Hsome i Hntb) as [Hi8 _].
    split; [exact Hntb|]. split.
    + rewrite (Hch i Hi8), Hr, length_rev, Hlen, rev_involutive. reflexivity.
    + intros j Hj Hne. rewrite (Hch j Hj).
      rewrite (routed_elsewhere d i j (rev data) Hr) by congruence. reflexivity.
  - intros Hnot. assert (snd st = None) as Hntb.
    { destruct (snd st) as [j|] eqn:E; [|reflexivity].
      exfalso. apply (Hnot j), Hsome'. reflexivity. }
    split; [exact Hntb|]. intros j Hj. rewrite (Hch j Hj).
    specialize (Hnone Hntb j).
    destruct (32 - length (routed d j (rev data)))%nat eqn:E; [lia|]. reflexivity.
Qed.

Lemma prefix_then_next (l : list Z) (k : nat) :
  (k < length l)%nat -> l = firstn k l ++ nth k l 0 :: skipn (S k) l.
Proof.
  revert k; induction l as [|x l IH]; intros [|k] Hk; simpl in *; try lia.
  - reflexivity.
  - f_equal. apply IH. lia.
Qed.


Lemma reachable_run (values : list Z) (s : sTrie * nat) :
  Forall (fun v => 0 <= v < 65536) values ->
  run_from_init values = Done s -> reachable demo_alloc s.
Proof.
  unfold run_from_init. intros Hr.
  destruct (trie_init demo_alloc 0) as [s0|f] eqn:E0; [|discriminate].
  cbn [bind]. pose proof (reachable_init demo_alloc 0 s0 E0) as H0.
  clear E0. revert s0 H0. induction Hr as [|v values Hv Hr IH]; intros s0 H0.
  - cbn. intros [= <-]. destruct s0; exact H0.
  - cbn [insert_all].
    destruct (trie_insert_value demo_alloc (fst s0) v (snd s0)) as [s1|f] eqn:E1;
      [|discriminate].
    cbn [bind]. apply IH. eapply reachable_insert; eauto.
Qed.

Lemma demo_alloc_nonnull (k : nat) : demo_alloc k <> 0.
Proof. unfold demo_alloc. lia. Qed.

(** ** Release of a well-formed subtrie *)

Lemma free_wf (d : nat) (p : Z) (n : Node) :
  wf d p n -> exists freed, trie__free_subtrie n d = Done freed.
Proof.
  induction 1 as [d p data occ Hd Hsp Hlen Hspan
                 | d p slab link Hd Hlen Hch IH
                 | p count Hlen Hc Hz].
  - exists []. unfold trie__free_subtrie. unfold TRIE_MAX_DEPTH in *.
    replace (6 - d)%nat with (S (5 - d)) by lia. cbn [free_rec].
    rewrite classify_data
      by (unfold TRIE_MAX_DEPTH; try lia; eapply sparse_slot0; eauto).
    reflexivity.
  - unfold trie__free_subtrie in *. unfold TRIE_MAX_DEPTH in *.
    replace (6 - d)%nat with (S (6 - S d)) by lia. cbn [free_rec].
    rewrite classify_travel by (unfold TRIE_MAX_DEPTH; lia).
    destruct (IH 7%nat ltac:(lia)) as [f7 ->]. destruct (IH 6%nat ltac:(lia)) as [f6 ->].
    destruct (IH 5%nat ltac:(lia)) as [f5 ->]. destruct (IH 4%nat ltac:(lia)) as [f4 ->].
    destruct (IH 3%nat ltac:(lia)) as [f3 ->]. destruct (IH 2%nat ltac:(lia)) as [f2 ->].
    destruct (IH 1%nat ltac:(lia)) as [f1 ->]. destruct (IH 0%nat ltac:(lia)) as [f0 ->].
    cbn [bind]. eexists; reflexivity.
  - exists []. reflexivity.
Qed.

(** ** The ceiling is reached exactly by the 65536th copy of a value *)

Lemma count_occ_flat_map_only (L : nat -> list Z) (s : list nat) (i : nat) (x : Z) :
  NoDup s -> In i s ->
  (forall j, In j s -> j <> i -> ~ In x (L j)) ->
  count_occ Z.eq_dec (flat_map L s) x = count_occ Z.eq_dec (L i) x.
Proof.
  induction s as [|a s IH]; intros Hnd Hin Hother; [destruct Hin|].
  apply NoDup_cons_iff in Hnd. destruct Hnd as [Ha Hnd].
  simpl. rewrite count_occ_app. destruct (Nat.eq_dec a i) as [->|Hne].
  - assert (count_occ Z.eq_dec (flat_map L s) x = 0%nat) as ->; [|lia].
    apply count_occ_not_In. intros Hx. apply in_flat_map in Hx.
    destruct Hx as (j & Hj & Hx).
    apply (Hother j); [now right | intros ->; contradiction | exact Hx].
  - destruct Hin as [Heq|Hin]; [contradiction|].
    assert (count_occ Z.eq_dec (L a) x = 0%nat) as ->
      by (apply count_occ_not_In, Hother; [now left | exact Hne]).
    apply IH; auto. intros j Hj. apply Hother. now right.
Qed.

Section Ceiling.

Variable aligned_alloc : nat -> Z.

Lemma insert_rec_at_ceiling (d : nat) (p : Z) (n : Node) :
  wf d p n ->
  forall v heap,
    prefix_ok d p -> in_span d p v ->
    Z.of_nat (count_occ Z.eq_dec (subtrie_values n p d) v) = USHRT_MAX ->
    insert_rec aligned_alloc (S TRIE_MAX_DEPTH - d) n d v heap
    = Abort CounterCeiling.
Proof.
  induction 1 as [d p data occ Hd Hsp Hlen Hspan
                 | d p slab link Hd Hlen Hch IH
                 | p count Hlen Hc Hz]; intros v heap Hp Hv Hfull.
  - exfalso. unfold TRIE_MAX_DEPTH in Hd.
    rewrite (values_data d p data occ ltac:(lia) Hsp Hlen) in Hfull.
    pose proof (count_occ_bound Z.eq_dec v (rev occ)) as Hb.
    rewrite length_rev in Hb. unfold USHRT_MAX in Hfull. lia.
  - unfold TRIE_MAX_DEPTH in Hd.
    assert (wf d p (TravelNode slab link)) as Hwf by (apply wf_travel; auto).
    replace (S TRIE_MAX_DEPTH - d)%nat with (S (S TRIE_MAX_DEPTH - S d))
      by (unfold TRIE_MAX_DEPTH; lia).
    cbn [insert_rec]. rewrite classify_travel by (unfold TRIE_MAX_DEPTH; lia).
    unfold trie__follow_travel_node.
    pose proof (IDX_range v d ltac:(lia)) as Hr.
    pose proof (IDX_child d p v ltac:(lia) Hp Hv) as Hc.
    set (i := Z.to_nat (IDX_FROM_VALUE v d)) in *.
    assert (i < 8)%nat as Hi by (unfold i; lia).
    assert (p + Z.of_nat i * span (S d) = p + IDX_FROM_VALUE v d * span (S d))
      as Hpi by (unfold i; rewrite Z2Nat.id by lia; reflexivity).
    rewrite <- Hpi in Hc.
    rewrite (IH i Hi v heap); [reflexivity | | exact Hc |].
    + apply prefix_child; auto; lia.
    + rewrite (values_travel d p slab link Hwf Hp) in Hfull.
      rewrite (count_occ_flat_map_only _ _ i) in Hfull; auto.
      * apply seq_NoDup.
      * apply in_seq; lia.
      * intros j Hj Hne Hin. apply in_seq in Hj.
        destruct (print_wf (S d) (child_prefix d p j) (nth j link zero_block))
          as (_ & _ & Hspan); [apply Hch; lia | apply prefix_child; auto; lia|].
        rewrite Forall_forall in Hspan. specialize (Hspan v Hin).
        unfold in_span, child_prefix in *.
        pose proof (span_pos (S d) ltac:(lia)). nia.
  - change (S TRIE_MAX_DEPTH - TRIE_MAX_DEPTH)%nat with 1%nat.
    cbn [insert_rec]. rewrite classify_count.
    rewrite (values_count p count Hp) in Hfull.
    destruct (bucket_of_key p v Hp Hv) as [Hb Hcases].
    unfold trie__get_count_node_bucket. rewrite Hb.
    assert (nth (Z.to_nat (v - p)) count 0 = USHRT_MAX) as ->.
    { rewrite count_occ_app in Hfull. pose proof (Hc 0%nat). pose proof (Hc 1%nat).
      destruct Hcases as [->| ->].
      - replace (Z.to_nat (p - p)) with 0%nat by lia.
        rewrite count_occ_repeat_eq in Hfull by reflexivity.
        rewrite count_occ_repeat_neq in Hfull by lia. lia.
      - replace (Z.to_nat (p + 1 - p)) with 1%nat by lia.
        rewrite count_occ_repeat_neq in Hfull by lia.
        rewrite count_occ_repeat_eq in Hfull by reflexivity. lia. }
    reflexivity.
Qed.

Lemma trie_insert_at_ceiling (t : sTrie) (hist : list Z) (v : Z) (heap : nat) :
  holds t hist -> v <> 0 -> 0 <= v < 65536 ->
  Z.of_nat (count_occ Z.eq_dec hist v) = USHRT_MAX ->
  trie_insert_value aligned_alloc t v heap = Abort CounterCeiling.
Proof.
  intros (Hwf & Hperm & _) Hnz Hv Hfull. unfold trie_insert_value.
  destruct (Z.eqb_spec v 0); [contradiction|].
  pose proof (insert_rec_at_ceiling 0 0 (base_node t) Hwf v heap prefix_root)
    as Hrec.
  change (S TRIE_MAX_DEPTH - 0)%nat with (S TRIE_MAX_DEPTH) in Hrec.
  rewrite Hrec; [reflexivity | unfold in_span; change (span 0) with 65536; lia |].
  rewrite (proj1 (Permutation_count_occ Z.eq_dec _ _) Hperm v).
  rewrite count_occ_filter. destruct (Z.eqb_spec v 0); [contradiction|].
  exact Hfull.
Qed.

(** A run of insertions in which some non-zero value comes more than 65535
    times stops at the ceiling assertion. *)
Lemma insert_all_past_ceiling (values hist : list Z) (t : sTrie) (heap : nat) :
  (forall k, aligned_alloc k <> 0) ->
  holds t hist ->
  Forall (fun v => 0 <= v < 65536) values ->
  (forall v, v <> 0 -> Z.of_nat (count_occ Z.eq_dec hist v) <= USHRT_MAX) ->
  (exists v, v <> 0 /\
     USHRT_MAX < Z.of_nat (count_occ Z.eq_dec (hist ++ values) v)) ->
  insert_all aligned_alloc values t heap = Abort CounterCeiling.
Proof.
  intros Halloc. revert hist t heap.
  induction values as [|x values IH]; intros hist t heap Hh Hr Hhist Hover.
  - exfalso. destruct Hover as (v & Hv & Hgt). rewrite app_nil_r in Hgt.
    specialize (Hhist v Hv). lia.
  - apply Forall_cons_iff in Hr. destruct Hr as [Hx Hr]. cbn [insert_all].
    destruct (Z.eq_dec x 0) as [Hx0|Hx0];
      [|destruct (Z.eq_dec (Z.of_nat (count_occ Z.eq_dec hist x)) USHRT_MAX)
          as [Hfull|Hroom]].
    + (* a zero: the run goes on *)
      pose proof (trie_insert_value_spec aligned_alloc t hist x heap Hh Hx) as Hstep.
      destruct (trie_insert_value aligned_alloc t x heap) as [s|f];
        cbn [bind step_outcome] in *.
      * destruct Hstep as [Hh' _]. apply (IH (hist ++ [x])); auto.
        -- intros v Hv. rewrite count_occ_snoc.
           destruct (Z.eq_dec x v); [congruence|].
           rewrite Nat.add_0_r. apply Hhist, Hv.
        -- rewrite <- app_assoc. exact Hover.
      * exfalso. destruct Hstep as [(_ & Hnz & _)|(_ & k & _ & Hk)];
          [contradiction | exact (Halloc k Hk)].
    + (* the bucket of [x] is at the ceiling *)
      rewrite (trie_insert_at_ceiling t hist x heap Hh Hx0 Hx Hfull). reflexivity.
    + pose proof (trie_insert_value_spec aligned_alloc t hist x heap Hh Hx) as Hstep.
      destruct (trie_insert_value aligned_alloc t x heap) as [s|f];
        cbn [bind step_outcome] in *.
      * destruct Hstep as [Hh' _]. apply (IH (hist ++ [x])); auto.
        -- intros v Hv. rewrite count_occ_snoc. specialize (Hhist v Hv).
           destruct (Z.eq_dec x v) as [<-|]; lia.
        -- rewrite <- app_assoc. exact Hover.
      * exfalso. destruct Hstep as [(_ & _ & Hceil)|(_ & k & _ & Hk)];
          [|exact (Halloc k Hk)].
        specialize (Hhist x Hx0). lia.
Qed.

Lemma enumerate_after_past_ceiling (values : list Z) (heap : nat) :
  (forall k, aligned_alloc k <> 0) ->
  Forall (fun v => 0 <= v < 65536) values ->
  (exists v, v <> 0 /\ USHRT_MAX < Z.of_nat (count_occ Z.eq_dec values v)) ->
  enumerate_after aligned_alloc values heap = Abort CounterCeiling.
Proof.
  intros Halloc Hr Hover. unfold enumerate_after.
  destruct (trie_init aligned_alloc heap) as [s0|f] eqn:Einit.
  - cbn [bind].
    rewrite (insert_all_past_ceiling values [] (fst s0) (snd s0)); auto.
    + eapply holds_init; eauto.
    + intros v _. simpl. unfold USHRT_MAX. lia.
  - exfalso. unfold trie_init in Einit.
    destruct (Z.eqb_spec (aligned_alloc heap) 0) as [E|E]; [|discriminate].
    exact (Halloc heap E).
Qed.

End Ceiling.
(** ** One placement of the burst, slot by slot *)

Lemma burst_scan_here (child : list Z) (v : Z) (e : nat) :
  nth e child 0 = 0 \/ v < nth e child 0 -> burst_scan child v e = Done e.
Proof.
  intros H. destruct e; simpl burst_scan.
  - destruct H as [-> | H]; [reflexivity|].
    destruct (nth 0 child 0 =? 0); [reflexivity|]. cbn [negb andb].
    destruct (Z.leb_spec (nth 0 child 0) v); [lia | reflexivity].
  - destruct H as [-> | H]; [reflexivity|].
    destruct (nth (S e) child 0 =? 0); [reflexivity|]. cbn [negb andb].
    destruct (Z.leb_spec (nth (S e) child 0) v); [lia | reflexivity].
Qed.

(** The step writes the value into the slot the scan returned and nowhere
    else. *)
Lemma burst_data_step_writes (d : nat) (st : burst_state) (v : Z) (e : nat) :
  let i := Z.to_nat (IDX_FROM_VALUE v d) in
  let child := nth i (fst st) [] in
  (i < length (fst st))%nat -> (e < length child)%nat ->
  burst_scan child v 31 = Done e ->
  exists st',
    burst_data_step d st v = Done st' /\
    length (fst st') = length (fst st) /\
    nth i (fst st') [] = store child e v /\
    length (nth i (fst st') []) = length child /\
    nth e (nth i (fst st') []) 0 = v /\
    (forall j, j <> e -> nth j (nth i (fst st') []) 0 = nth j child 0) /\
    (forall i', i' <> i -> nth i' (fst st') [] = nth i' (fst st) []) /\
    (snd st' = Some i <-> e = 0%nat \/ snd st = Some i).
Proof.
  intros i child Hi He Hscan.
  unfold burst_data_step. fold i. fold child. rewrite Hscan. cbn [bind].
  eexists. split; [reflexivity|]. cbn [fst snd].
  rewrite length_store, (nth_store_same _ i _ _ Hi), length_store.
  split; [reflexivity|]. split; [reflexivity|]. split; [reflexivity|].
  split; [apply nth_store_same, He|].
  split; [intros j Hj; apply nth_store_other; congruence|].
  split; [intros i' Hi'; apply nth_store_other; congruence|].
  destruct (Nat.eqb_spec e 0) as [->|Hne].
  - split; [now left | reflexivity].
  - split; [now right | intros [H|H]; [contradiction | exact H]].
Qed.

(** Processing a larger value before a smaller one of the same child loses
    the larger one: the scan stops at once on the occupied last slot. *)
Lemma redistribute_descending_pair (d : nat) (a b : Z) :
  (d <= 5)%nat -> 0 < a < b -> b < 65536 ->
  IDX_FROM_VALUE a d = IDX_FROM_VALUE b d ->
  exists st,
    redistribute d [b; a] empty_slab = Done st /\
    nth (Z.to_nat (IDX_FROM_VALUE a d)) (fst st) [] = repeat 0 31 ++ [a].
Proof.
  intros Hd Ha Hb Hidx.
  pose proof (IDX_range a d Hd) as Hr.
  set (i := Z.to_nat (IDX_FROM_VALUE a d)).
  assert (i < 8)%nat as Hi by (unfold i; lia).
  cbn [redistribute]. unfold burst_data_step at 1.
  rewrite <- Hidx. fold i. cbn [fst snd empty_slab].
  rewrite (nth_repeat_any _ _ _ _ Hi).
  rewrite (burst_scan_here (repeat 0 32) b 31) by (left; reflexivity).
  cbn [bind]. unfold burst_data_step. fold i. cbn [fst snd].
  rewrite nth_store_same by (rewrite repeat_length; exact Hi).
  change (store (repeat 0 32) 31 b) with (repeat 0 31 ++ [b]).
  rewrite (burst_scan_here (repeat 0 31 ++ [b]) a 31)
    by (right; rewrite app_nth2 by (rewrite repeat_length; lia);
        rewrite repeat_length; simpl; lia).
  cbn [bind]. eexists. split; [reflexivity|]. cbn [fst].
  rewrite nth_store_same by (rewrite length_store, repeat_length; exact Hi).
  replace 31%nat with (length (repeat 0%Z 31)) at 2 by apply repeat_length.
  apply store_middle.
Qed.

Lemma count_occ_store (l : list Z) (e : nat) (o y x : Z) :
  (e < length l)%nat -> nth e l 0 = o -> o <> y ->
  count_occ Z.eq_dec (store l e y) x
  = if Z.eq_dec x o then Nat.pred (count_occ Z.eq_dec l o)
    else if Z.eq_dec x y then S (count_occ Z.eq_dec l y)
    else count_occ Z.eq_dec l x.
Proof.
  revert e. induction l as [|h t IH]; intros [|e] He Hnth Hne;
    simpl in He; try lia.
  - simpl in Hnth. subst h. cbn [store count_occ].
    destruct (Z.eq_dec x o) as [->|Hxo].
    + destruct (Z.eq_dec y o); [congruence|].
      destruct (Z.eq_dec o o); [reflexivity | congruence].
    + destruct (Z.eq_dec x y) as [->|Hxy].
      * destruct (Z.eq_dec y y); [|congruence].
        destruct (Z.eq_dec o y); [congruence | reflexivity].
      * destruct (Z.eq_dec y x); [congruence|].
        destruct (Z.eq_dec o x); [congruence | reflexivity].
  - simpl in Hnth. cbn [store count_occ].
    rewrite (IH e ltac:(lia) Hnth Hne).
    assert (0 < count_occ Z.eq_dec t o)%nat as Hpos.
    { apply count_occ_In. rewrite <- Hnth. apply nth_In. lia. }
    destruct (Z.eq_dec x o) as [->|Hxo].
    + destruct (Z.eq_dec h o); [|reflexivity]. lia.
    + destruct (Z.eq_dec x y) as [->|Hxy].
      * destruct (Z.eq_dec h y); reflexivity.
      * destruct (Z.eq_dec h x); reflexivity.
Qed.

(** * The claims *)

Section Claims.

Variable aligned_alloc : nat -> Z.

(** C4. The addressing function [IDX_FROM_VALUE] is total; on a 16-bit value,
    depths 0 to 4 each extract the 3-bit slice that starts at bit
    [13 - 3 * depth] (so the slices are contiguous, disjoint and taken from
    the most significant end downwards), depth 5 extracts bit 0, every index
    lies in 0..7, and the six slices shifted back to their positions add up
    to the value. *)
Theorem addressing_partitions_value (v : Z) :
  0 <= v < 65536 ->
  (forall d, (d <= 4)%nat ->
     GEN_SHIFT d = 13 - 3 * Z.of_nat d /\
     GEN_MASK d = Z.shiftl 7 (GEN_SHIFT d) /\
     IDX_FROM_VALUE v d = (v / 2 ^ (13 - 3 * Z.of_nat d)) mod 2 ^ 3) /\
  GEN_SHIFT TRIE_MAX_DEPTH = 0 /\ GEN_MASK TRIE_MAX_DEPTH = 1 /\
  IDX_FROM_VALUE v TRIE_MAX_DEPTH = v mod 2 /\
  (forall d, (d <= TRIE_MAX_DEPTH)%nat -> 0 <= IDX_FROM_VALUE v d < 8) /\
  v = Z.shiftl (IDX_FROM_VALUE v 0) (GEN_SHIFT 0)
      + Z.shiftl (IDX_FROM_VALUE v 1) (GEN_SHIFT 1)
      + Z.shiftl (IDX_FROM_VALUE v 2) (GEN_SHIFT 2)
      + Z.shiftl (IDX_FROM_VALUE v 3) (GEN_SHIFT 3)
      + Z.shiftl (IDX_FROM_VALUE v 4) (GEN_SHIFT 4)
      + Z.shiftl (IDX_FROM_VALUE v 5) (GEN_SHIFT 5).
Proof.
  intros Hv. split; [|split; [|split; [|split; [|split]]]].
  - intros d Hd. split; [|split].
    + destruct d as [|[|[|[|[|d]]]]]; try lia; reflexivity.
    + destruct d as [|[|[|[|[|d]]]]]; try lia; reflexivity.
    + apply IDX_slice, Hd.
  - reflexivity.
  - reflexivity.
  - apply IDX_last_bit.
  - intros d Hd. apply IDX_range, Hd.
  - rewrite !IDX_slice, IDX_last_bit by lia.
    cbn [GEN_SHIFT nth shift_amount]. rewrite !Z.shiftl_mul_pow2 by lia.
    change (2 ^ (13 - 3 * Z.of_nat 0)) with 8192.
    change (2 ^ (13 - 3 * Z.of_nat 1)) with 1024.
    change (2 ^ (13 - 3 * Z.of_nat 2)) with 128.
    change (2 ^ (13 - 3 * Z.of_nat 3)) with 16.
    change (2 ^ (13 - 3 * Z.of_nat 4)) with 2.
    change (2 ^ 13) with 8192. change (2 ^ 10) with 1024.
    change (2 ^ 7) with 128. change (2 ^ 4) with 16. change (2 ^ 1) with 2.
    change (2 ^ 0) with 1.
    Z.div_mod_to_equations. lia.
Qed.

(** C1 (amended). For every sequence of u16 values in which no non-zero value
    occurs more than 65535 times and zero occurs fewer than 2^64 times, and
    as long as no allocation fails, inserting the values in any order into a
    fresh container and enumerating prints exactly what the 65536-slot
    oracle prints for the sequence: the inserted values in ascending order,
    each once per insertion. If some non-zero value occurs more than 65535
    times, the run stops at the ceiling assertion instead. *)
Theorem enumeration_matches_oracle (values values' : list Z) (heap : nat) :
  (forall k, aligned_alloc k <> 0) ->
  Forall (fun v => 0 <= v < 65536) values ->
  Permutation values values' ->
  (within_ceilings values ->
     enumerate_after aligned_alloc values' heap = Done (oracle_run values') /\
     oracle_run values' = oracle_run values /\
     StronglySorted Z.le (oracle_run values) /\
     Permutation (oracle_run values) values /\
     stream_text (printed (enumerate_after aligned_alloc values' heap))
     = stream_text (oracle_run values)) /\
  ((exists v, v <> 0 /\ USHRT_MAX < Z.of_nat (count_occ Z.eq_dec values v)) ->
     enumerate_after aligned_alloc values' heap = Abort CounterCeiling).
Proof.
  intros Halloc Hrange HP. split.
  - intros Hc.
    pose proof (within_ceilings_perm _ _ HP Hc) as Hc'.
    assert (forall l, within_ceilings l ->
              forall v, Z.of_nat (count_occ Z.eq_dec l v) < 2 ^ 64) as Hsmall.
    { intros l (_ & Hnz & Hz) v. destruct (Z.eq_dec v 0) as [->|Hv]; [exact Hz|].
      specialize (Hnz v Hv). unfold USHRT_MAX in Hnz. lia. }
    destruct (oracle_run_spec values (proj1 Hc) (Hsmall _ Hc)) as [Hs HPo].
    destruct (oracle_run_spec values' (proj1 Hc') (Hsmall _ Hc')) as [Hs' HPo'].
    destruct (enumerate_after_spec aligned_alloc values' heap Halloc Hc')
      as (out & Hrun & Hsout & HPout).
    assert (out = oracle_run values') as ->.
    { apply ascending_perm_eq; auto.
      eapply Permutation_trans; [exact HPout | apply Permutation_sym, HPo']. }
    assert (oracle_run values' = oracle_run values) as E.
    { apply ascending_perm_eq; auto.
      eapply Permutation_trans; [exact HPo'|].
      eapply Permutation_trans; [apply Permutation_sym, HP|].
      apply Permutation_sym, HPo. }
    rewrite Hrun. cbn [printed]. rewrite E. auto.
  - intros (v & Hv & Hover).
    apply enumerate_after_past_ceiling; auto.
    + eapply Permutation_Forall; eauto.
    + exists v. split; [exact Hv|].
      rewrite <- (proj1 (Permutation_count_occ Z.eq_dec _ _) HP v). exact Hover.
Qed.

(** C2 (amended). In a burst at a depth whose children are data nodes, the
    redistribution sets [node_to_burst] exactly when all 32 values select
    the same child [i]; that child is then a full copy of the node and is
    burst recursively at [depth + 1], the depth the child sits at, while
    every other child is left an empty data node. If the values do not all
    select one child, no child is full, nothing is burst recursively and
    exactly one slab is allocated. A burst at depth 4, whose children are
    count nodes, never recurses. *)
Theorem burst_recursion_on_overfull_child (d : nat) (data : list Z) (heap : nat) :
  (d < TRIE_MAX_DEPTH)%nat -> full_node data -> aligned_alloc heap <> 0 ->
  (d = (TRIE_MAX_DEPTH - 1)%nat ->
   trie__burst_data_node aligned_alloc data d heap
   = Done (TravelNode (aligned_alloc heap)
             (map CountNode
                (burst_count_loop data d 31 (repeat (repeat 0 8) 8))),
           S heap)) /\
  ((d < TRIE_MAX_DEPTH - 1)%nat ->
   exists slab node_to_burst,
     burst_data_loop data d 31 empty_slab = Done (slab, node_to_burst) /\
     (forall i, all_routed_to d i data ->
        node_to_burst = Some i /\
        nth i slab [] = data /\
        trie__data_node_is_full (nth i slab []) = true /\
        (forall j, (j < 8)%nat -> j <> i -> nth j slab [] = repeat 0 32) /\
        trie__burst_data_node aligned_alloc data d heap
        = (r <- trie__burst_data_node aligned_alloc (nth i slab []) (S d) (S heap) ;;
           Done (TravelNode (aligned_alloc heap)
                   (store (map DataNode slab) i (fst r)), snd r))) /\
     ((forall i, ~ all_routed_to d i data) ->
        node_to_burst = None /\
        (forall j, (j < 8)%nat ->
           trie__data_node_is_full (nth j slab []) = false) /\
        trie__burst_data_node aligned_alloc data d heap
        = Done (TravelNode (aligned_alloc heap) (map DataNode slab), S heap))).
Proof.
  unfold TRIE_MAX_DEPTH. intros Hd5 Hfull Hnn. split.
  { intros ->. unfold trie__burst_data_node, TRIE_MAX_DEPTH.
    cbn [Nat.sub]. cbn [burst_rec]. unfold TRIE_MAX_DEPTH. cbn [Nat.sub Nat.eqb].
    destruct (Z.eqb_spec (aligned_alloc heap) 0); [contradiction|].
    reflexivity. }
  intros Hd.
  destruct (redistribute_full d data ltac:(lia) Hfull) as ([slab ntb] & Hloop & Hinv).
  destruct (node_to_burst_spec d data (slab, ntb) Hfull Hinv) as [Hsame Hdiff].
  cbn [fst snd] in *.
  assert (trie__burst_data_node aligned_alloc data d heap
            = match ntb with
              | None => Done (TravelNode (aligned_alloc heap) (map DataNode slab),
                              S heap)
              | Some i =>
                r <- burst_rec aligned_alloc (TRIE_MAX_DEPTH - S d)
                       (nth i slab []) (S d) (S heap) ;;
                Done (TravelNode (aligned_alloc heap)
                        (store (map DataNode slab) i (fst r)), snd r)
              end) as Hunfold.
  { unfold trie__burst_data_node.
    replace (TRIE_MAX_DEPTH - d)%nat with (S (TRIE_MAX_DEPTH - S d))
      by (unfold TRIE_MAX_DEPTH; lia).
    cbn [burst_rec].
    destruct (Z.eqb_spec (aligned_alloc heap) 0); [contradiction|].
    destruct (Nat.eqb_spec d (TRIE_MAX_DEPTH - 1));
      [unfold TRIE_MAX_DEPTH in *; lia|].
    unfold empty_slab in Hloop. rewrite Hloop. cbn [bind fst snd]. reflexivity. }
  exists slab, ntb. split; [exact Hloop|]. split.
  - intros i Hi. destruct (Hsame i Hi) as (-> & Hchild & Hrest).
    split; [reflexivity|]. split; [exact Hchild|]. split; [|split; [exact Hrest|]].
    + rewrite Hchild. destruct Hfull as (Hlen & Hpos & _).
      destruct data as [|x data]; [discriminate|]. apply Forall_inv in Hpos.
      unfold trie__data_node_is_full. cbn [nth].
      destruct (Z.eqb_spec x 0); [lia | reflexivity].
    + exact Hunfold.
  - intros Hnot. destruct (Hdiff Hnot) as (-> & Hslots).
    split; [reflexivity|]. split; [|exact Hunfold].
    intros j Hj. unfold trie__data_node_is_full. now rewrite (Hslots j Hj).
Qed.

(** C3 (amended). In every reachable state, every data node consists of a
    prefix of empty slots (holding 0) followed by a suffix of occupied slots;
    the occupied values are non-zero, and they are sorted in descending
    order with increasing slot index, that is, ascending from the last slot
    towards the first, duplicates allowed. At least one slot is empty. *)
Theorem sparse_nodes_sorted_from_last_slot (s : sTrie * nat) (d : nat)
  (data : list Z) :
  reachable aligned_alloc s ->
  subnode 0 (base_node (fst s)) d (DataNode data) ->
  exists occ,
    data = repeat 0 (32 - length occ) ++ occ /\
    (length occ < 32)%nat /\
    Forall (fun x => x <> 0) occ /\
    StronglySorted Z.ge occ /\
    (forall i j, (i <= j < 32)%nat -> nth i data 0 <> 0 ->
       nth j data 0 <> 0 /\ nth j data 0 <= nth i data 0).
Proof.
  intros Hreach Hsub. destruct (reachable_wf _ _ _ _ Hreach Hsub) as [p Hwf].
  inversion Hwf as [d0 p0 data0 occ Hd Hsp Hlen Hspan | |]; subst.
  exists occ. destruct Hsp as (Hdata & _ & Hpos & Hsorted).
  split; [exact Hdata|]. split; [exact Hlen|]. split; [|split; [exact Hsorted|]].
  - eapply Forall_impl; [|exact Hpos]. simpl; lia.
  - intros i j Hij Hi. set (k := (32 - length occ)%nat) in *.
    assert (k <= i)%nat as Hki.
    { destruct (Nat.lt_ge_cases i k) as [Hlt|]; [|assumption].
      rewrite Hdata, app_nth1, nth_repeat_any in Hi
        by (rewrite ?repeat_length; lia). congruence. }
    rewrite Hdata in *. rewrite !app_nth2, repeat_length in * by (rewrite repeat_length; lia).
    assert (j - k < length occ)%nat as Hj by (unfold k; lia).
    assert (i - k <= j - k)%nat as Hle by lia.
    clear Hdata Hij Hki Hlen. revert Hle Hj Hi.
    generalize (i - k)%nat as a, (j - k)%nat as b. clear -Hpos Hsorted.
    induction Hsorted as [|x t Ht IH Hx]; intros a b Hab Hb Ha;
      [simpl in Hb; lia|].
    apply Forall_cons_iff in Hpos. destruct Hpos as [Hx0 Hpos].
    destruct b as [|b].
    + assert (a = 0%nat) as -> by lia. simpl. lia.
    + destruct a as [|a].
      * simpl. assert (In (nth b t 0) t) as Hin
          by (apply nth_In; simpl in Hb; lia).
        rewrite Forall_forall in Hx, Hpos.
        specialize (Hx _ Hin). specialize (Hpos _ Hin). lia.
      * simpl. apply IH; auto; simpl in Hb; lia.
Qed.

(** C5. In every reachable state, a count node sits at the maximal depth and
    none of its counters exceeds 65535; an insertion that arrives at it
    fails with the ceiling assertion exactly when the bucket selected by
    [IDX_FROM_VALUE value TRIE_MAX_DEPTH] already holds 65535, and otherwise
    returns the node with that bucket incremented by one. *)
Theorem count_bucket_ceiling (s : sTrie * nat) (d : nat) (count : list Z)
  (value : Z) (heap : nat) :
  reachable aligned_alloc s ->
  subnode 0 (base_node (fst s)) d (CountNode count) ->
  d = TRIE_MAX_DEPTH /\
  (forall b, 0 <= nth b count 0 <= USHRT_MAX) /\
  insert_rec aligned_alloc (S TRIE_MAX_DEPTH - d) (CountNode count) d value heap
  = (let b := Z.to_nat (IDX_FROM_VALUE value TRIE_MAX_DEPTH) in
     if nth b count 0 =? USHRT_MAX then Abort CounterCeiling
     else Done (CountNode (store count b (nth b count 0 + 1)), heap)).
Proof.
  intros Hreach Hsub. destruct (reachable_wf _ _ _ _ Hreach Hsub) as [p Hwf].
  inversion Hwf as [| |p0 count0 Hlen Hbound Hzero]; subst.
  split; [reflexivity|]. split; [exact Hbound|].
  change (S TRIE_MAX_DEPTH - TRIE_MAX_DEPTH)%nat with 1%nat.
  cbn [insert_rec]. rewrite classify_count.
  unfold trie__get_count_node_bucket. cbv zeta.
  set (b := Z.to_nat (IDX_FROM_VALUE value TRIE_MAX_DEPTH)).
  destruct (Z.eqb_spec (nth b count 0) USHRT_MAX); [reflexivity|].
  specialize (Hbound b). unfold USHRT_MAX in *.
  unfold u64. rewrite Z.mod_small by lia. reflexivity.
Qed.


(** C7. Inserting 0, 1, 2, 3, 5, 1, 8, 0, 8, 13, 65535, 90 into a fresh
    container and enumerating prints 0 0 1 1 2 3 5 8 8 13 90 65535, each
    number followed by one space and nothing else. *)
Theorem example_enumeration (heap : nat) :
  aligned_alloc heap <> 0 ->
  enumerate_after aligned_alloc [0; 1; 2; 3; 5; 1; 8; 0; 8; 13; 65535; 90] heap
  = Done [0; 0; 1; 1; 2; 3; 5; 8; 8; 13; 90; 65535] /\
  stream_text
    (printed (enumerate_after aligned_alloc
                [0; 1; 2; 3; 5; 1; 8; 0; 8; 13; 65535; 90] heap))
  = "0 0 1 1 2 3 5 8 8 13 90 65535 "%string.
Proof.
  intros Hnn.
  assert (enumerate_after aligned_alloc
            [0; 1; 2; 3; 5; 1; 8; 0; 8; 13; 65535; 90] heap
          = Done [0; 0; 1; 1; 2; 3; 5; 8; 8; 13; 90; 65535]) as E.
  { unfold enumerate_after, trie_init.
    destruct (Z.eqb_spec (aligned_alloc heap) 0); [contradiction|].
    cbn [bind fst snd]. vm_compute. reflexivity. }
  split; [exact E|]. rewrite E. vm_compute. reflexivity.
Qed.

(** C8. The bucket index computed for a count node is 0 or 1 for every
    value, so insertion and enumeration, which reach the counters only
    through [trie__get_count_node_bucket], never address the counters 2 to
    7; in every reachable state these counters of every count node are 0. *)
Theorem count_node_uses_two_buckets (s : sTrie * nat) (d : nat)
  (count : list Z) :
  reachable aligned_alloc s ->
  subnode 0 (base_node (fst s)) d (CountNode count) ->
  (forall value,
     (IDX_FROM_VALUE value TRIE_MAX_DEPTH = 0 \/
      IDX_FROM_VALUE value TRIE_MAX_DEPTH = 1) /\
     (trie__get_count_node_bucket value < 2)%nat) /\
  length count = 8%nat /\
  (forall b, (2 <= b <= 7)%nat -> nth b count 0 = 0).
Proof.
  intros Hreach Hsub. destruct (reachable_wf _ _ _ _ Hreach Hsub) as [p Hwf].
  inversion Hwf as [| |p0 count0 Hlen Hbound Hzero]; subst.
  split; [|split; [exact Hlen|]].
  - intros value. unfold trie__get_count_node_bucket.
    change TRIE_MAX_DEPTH with 5%nat. rewrite IDX_last_bit.
    pose proof (Z.mod_pos_bound value 2 ltac:(lia)). lia.
  - intros b Hb. apply Hzero. lia.
Qed.

(** C9. In every reachable state, the tagless test gives every node its
    actual shape: a node is a count node exactly at the maximal depth;
    above it, slot 0 of the 16-bit view is non-zero exactly for travel nodes
    and zero exactly for data nodes, so no data node is left full; hence
    the enumeration and the release run through without meeting an
    unexpected shape. *)
Theorem classification_sound (s : sTrie * nat) (d : nat) (n : Node) :
  reachable aligned_alloc s ->
  subnode 0 (base_node (fst s)) d n ->
  trie__determine_node_type n d = shape n /\
  (d = TRIE_MAX_DEPTH <-> shape n = NODE_TYPE_COUNT) /\
  (d <> TRIE_MAX_DEPTH ->
     (data_slot0 n <> 0 <-> shape n = NODE_TYPE_TRAVEL) /\
     (data_slot0 n = 0 <-> shape n = NODE_TYPE_DATA)) /\
  (forall data, n = DataNode data -> trie__data_node_is_full data = false) /\
  (exists out, trie_print_values (fst s) = Done out) /\
  (exists freed, trie_free (fst s) = Done freed).
Proof.
  intros Hreach Hsub. destruct (reachable_wf _ _ _ _ Hreach Hsub) as [p Hwf].
  split; [apply (wf_classified d p), Hwf|]. split; [|split; [|split; [|split]]].
  - inversion Hwf; subst; cbn [shape]; unfold TRIE_MAX_DEPTH in *;
      split; intros; try discriminate; try lia; reflexivity.
  - intros Hd.
    inversion Hwf as [d0 p0 data occ Hd' Hsp Hlen Hspan
                     | d0 p0 slab link Hd' Hlen Hch |]; subst; cbn [shape data_slot0].
    + rewrite (sparse_slot0 data occ Hsp Hlen).
      split; split; intros; try discriminate; try reflexivity; congruence.
    + pose proof (tagged_pointer_low_half (slab + CACHE_LINE_SIZE * Z.of_nat 0)).
      unfold link_ptr.
      split; split; intros; try discriminate; try reflexivity; congruence.
    + congruence.
  - intros data ->.
    inversion Hwf as [d0 p0 data0 occ Hd' Hsp Hlen Hspan | |]; subst.
    unfold trie__data_node_is_full.
    now rewrite (sparse_slot0 data occ Hsp Hlen).
  - destruct (reachable_holds _ _ Hreach) as (hist & Hwf0 & _).
    destruct (print_wf 0 0 _ Hwf0 prefix_root) as [Hprint _].
    unfold trie_print_values. rewrite Hprint. cbn [bind]. eexists; reflexivity.
  - destruct (reachable_holds _ _ Hreach) as (hist & Hwf0 & _).
    apply (free_wf 0 0), Hwf0.
Qed.

(** C10. While a full data node is redistributed into data-node children,
    the values are taken from the last slot towards the first, that is in
    ascending order; so when a value is placed, nothing in its child is
    larger, and the placement scan stops inside the child's 32 slots on an
    empty slot. The value is written into exactly that slot: every other
    slot of the child and every other child keep their content, so each
    value stored before is still there, and at the end of the loop child
    [i] holds exactly the values of the node routed to it. In the opposite
    order the scan stops on an occupied slot and the write destroys a stored
    value. *)
Theorem burst_placement_finds_empty_slot (d : nat) (data : list Z) (k : nat) :
  (d < TRIE_MAX_DEPTH - 1)%nat -> full_node data -> (k < 32)%nat ->
  burst_data_loop data d 31 empty_slab = redistribute d (rev data) empty_slab /\
  StronglySorted Z.le (rev data) /\
  (exists st,
     redistribute d (firstn k (rev data)) empty_slab = Done st /\
     let v := nth k (rev data) 0 in
     let child := nth (Z.to_nat (IDX_FROM_VALUE v d)) (fst st) [] in
     length child = 32%nat /\
     Forall (fun x => x <= v) child /\
     exists e, burst_scan child v 31 = Done e /\ (e < 32)%nat /\
               nth e child 0 = 0 /\
     exists st',
       burst_data_step d st v = Done st' /\
       redistribute d (firstn (S k) (rev data)) empty_slab = Done st' /\
       let child' := nth (Z.to_nat (IDX_FROM_VALUE v d)) (fst st') [] in
       length (fst st') = 8%nat /\
       length child' = 32%nat /\
       nth e child' 0 = v /\
       (forall j, j <> e -> nth j child' 0 = nth j child 0) /\
       (forall x, x <> 0 -> In x child -> In x child') /\
       (forall x,
          count_occ Z.eq_dec child' x
          = if Z.eq_dec x 0 then Nat.pred (count_occ Z.eq_dec child 0)
            else if Z.eq_dec x v then S (count_occ Z.eq_dec child v)
            else count_occ Z.eq_dec child x) /\
       (forall i', i' <> Z.to_nat (IDX_FROM_VALUE v d) ->
          nth i' (fst st') [] = nth i' (fst st) [])) /\
  (exists st,
     burst_data_loop data d 31 empty_slab = Done st /\
     length (fst st) = 8%nat /\
     forall i, (i < 8)%nat ->
       nth i (fst st) []
       = repeat 0 (32 - length (routed d i data)) ++ routed d i data) /\
  (exists st,
     redistribute d [3; 2] empty_slab = Done st /\
     nth 0 (fst st) [] = repeat 0 31 ++ [2]) /\
  (forall a b, 0 < a < b -> b < 65536 ->
     IDX_FROM_VALUE a d = IDX_FROM_VALUE b d ->
     exists st,
       redistribute d [b; a] empty_slab = Done st /\
       nth (Z.to_nat (IDX_FROM_VALUE a d)) (fst st) [] = repeat 0 31 ++ [a]).
Proof.
  unfold TRIE_MAX_DEPTH. intros Hd (Hlen & Hpos & Hsorted) Hk.
  assert (StronglySorted Z.le (rev data)) as Hasc
    by (apply descending_rev_ascending, Hsorted).
  split; [|split; [exact Hasc|split; [|split; [|split]]]].
  - rewrite burst_data_loop_redistribute by lia.
    replace (firstn 32 data) with data
      by (rewrite <- Hlen, firstn_all; reflexivity).
    reflexivity.
  - assert (length (rev data) = 32%nat) as Hlr by (rewrite length_rev; exact Hlen).
    pose proof (prefix_then_next (rev data) k ltac:(lia)) as Hsplit.
    pose proof (firstn_succ_nth (rev data) k 0 ltac:(lia)) as Hnext.
    set (done := firstn k (rev data)) in *.
    set (v := nth k (rev data) 0) in *.
    assert (length done = k) as Hdone by (unfold done; rewrite length_firstn; lia).
    assert (Forall (fun x => 0 < x) (rev data)) as Hpos'
      by (apply Forall_rev; eapply Forall_impl; [|exact Hpos]; simpl; lia).
    rewrite Hsplit in Hasc, Hpos'.
    apply ssorted_app in Hasc. destruct Hasc as (Hs1 & _ & Hcross).
    apply Forall_app in Hpos'. destruct Hpos' as [Hp1 Hp2].
    apply Forall_inv in Hp2.
    destruct (redistribute_spec d done [] empty_slab ltac:(lia) (slab_inv_empty d))
      as (st & Hrun & Hinv); simpl app; auto; [lia|].
    simpl app in Hinv. exists st. split; [exact Hrun|]. cbv zeta.
    assert (Forall (fun x => 0 < x <= v) done) as Hle.
    { rewrite Forall_forall in *. intros x Hx.
      specialize (Hcross x v Hx ltac:(now left)). specialize (Hp1 x Hx). lia. }
    destruct (burst_data_step_spec d done st v ltac:(lia) Hinv ltac:(lia) Hle)
      as (Hscan & Hslot & _).
    pose proof (IDX_range v d ltac:(lia)) as Hr.
    pose proof Hinv as (Hlen8 & Hch & _).
    set (i := Z.to_nat (IDX_FROM_VALUE v d)) in *.
    pose proof (routed_length d i done).
    assert (length (nth i (fst st) []) = 32%nat) as Hlc.
    { rewrite (Hch i ltac:(unfold i; lia)).
      rewrite length_app, repeat_length, length_rev; lia. }
    split; [exact Hlc|]. split.
    + rewrite (Hch i ltac:(unfold i; lia)).
      apply Forall_app. split.
      * rewrite Forall_forall. intros x Hx. apply repeat_spec in Hx. lia.
      * apply Forall_rev. rewrite Forall_forall in *. intros x Hx.
        apply routed_In in Hx. destruct Hx as [Hx _]. specialize (Hle x Hx). lia.
    + eexists. split; [exact Hscan|]. split; [lia|]. split; [exact Hslot|].
      assert (i < length (fst st))%nat as Hi8 by (unfold i; lia).
      assert (31 - length (routed d i done) < length (nth i (fst st) []))%nat
        as He32 by (rewrite Hlc; lia).
      destruct (burst_data_step_writes d st v _ Hi8 He32 Hscan)
        as (st' & Hstep & Hl' & Hstore & Hlc' & Hwrite & Hkeep & Hother & _).
      fold i in Hl', Hstore, Hlc', Hwrite, Hkeep, Hother.
      exists st'. split; [exact Hstep|]. split.
      { rewrite Hnext. fold done. fold v.
        clear - Hrun Hstep. revert Hrun. generalize empty_slab.
        induction done as [|x l IH]; intros s0; cbn [redistribute app].
        - intros [= ->]. rewrite Hstep. reflexivity.
        - destruct (burst_data_step d s0 x); cbn [bind]; [apply IH | discriminate]. }
      split; [congruence|]. split; [congruence|]. split; [exact Hwrite|].
      split; [exact Hkeep|]. split; [|split; [|exact Hother]].
      * intros x Hx Hin. destruct (In_nth _ _ 0 Hin) as (j & Hj & Hnj).
        rewrite <- Hnj, <- Hkeep by congruence.
        apply nth_In. lia.
      * intros x. rewrite Hstore.
        apply count_occ_store; [lia | exact Hslot | lia].
  - destruct (redistribute_full d data ltac:(lia))
      as (st & Hrun & Hlen8 & Hch & _); [repeat split; assumption|].
    exists st. split; [exact Hrun|]. split; [exact Hlen8|].
    intros i Hi. rewrite (Hch i Hi), routed_rev, length_rev, rev_involutive.
    reflexivity.
  - destruct d as [|[|[|[|d]]]]; try lia; eexists; split; reflexivity.
  - intros a b Ha Hb Hidx.
    apply redistribute_descending_pair; [lia | exact Ha | exact Hb | exact Hidx].
Qed.

End Claims.

(** * Worked instances *)

Ltac descend_link :=
  apply (subnode_link _ _ _ 0%nat); [cbn; lia | cbn [nth]].

Lemma full_node_repeat (v : Z) : 0 < v < 65536 -> full_node (repeat v 32).
Proof.
  intros Hv. split; [reflexivity|]. split.
  - rewrite Forall_forall. intros x Hx. apply repeat_spec in Hx. lia.
  - apply ssorted_repeat. lia.
Qed.


Lemma within_ceilings_short (l : list Z) :
  Forall (fun v => 0 <= v < 65536) l -> Z.of_nat (length l) <= 65535 ->
  within_ceilings l.
Proof.
  intros Hr Hl. split; [exact Hr|]. split.
  - intros v _. pose proof (count_occ_bound Z.eq_dec v l). unfold USHRT_MAX. lia.
  - pose proof (count_occ_bound Z.eq_dec 0 l). lia.
Qed.

(** C1, the claim as stated fails: the insertion number 65536 of one non-zero
    value stops at the ceiling assertion, so nothing is enumerated. *)
Lemma oracle_equivalence_fails_past_ceiling :
  enumerate_after demo_alloc (repeat 1 (Z.to_nat 65536)) 0 = Abort CounterCeiling /\
  ~ (forall values, Forall (fun v => 0 <= v < 65536) values ->
       enumerate_after demo_alloc values 0 = Done (oracle_run values)).
Proof.
  assert (enumerate_after demo_alloc (repeat 1 (Z.to_nat 65536)) 0
          = Abort CounterCeiling) as E by (vm_compute; reflexivity).
  split; [exact E|]. intros H.
  specialize (H (repeat 1 (Z.to_nat 65536))). rewrite E in H.
  assert (Forall (fun v => 0 <= v < 65536) (repeat 1 (Z.to_nat 65536))) as Hr.
  { rewrite Forall_forall. intros x Hx. apply repeat_spec in Hx. lia. }
  specialize (H Hr). discriminate H.
Qed.

Lemma enumeration_matches_oracle_witness :
  within_ceilings [0; 1; 2; 3; 5; 1; 8; 0; 8; 13; 65535; 90] /\
  enumerate_after demo_alloc [90; 0; 1; 2; 3; 5; 1; 8; 0; 8; 13; 65535] 0
  = Done (oracle_run [0; 1; 2; 3; 5; 1; 8; 0; 8; 13; 65535; 90]).
Proof.
  assert (within_ceilings [0; 1; 2; 3; 5; 1; 8; 0; 8; 13; 65535; 90]) as Hc.
  { apply within_ceilings_short; [|simpl; lia].
    repeat (constructor; [lia|]). constructor. }
  split; [exact Hc|].
  destruct (enumeration_matches_oracle demo_alloc
              [0; 1; 2; 3; 5; 1; 8; 0; 8; 13; 65535; 90]
              [90; 0; 1; 2; 3; 5; 1; 8; 0; 8; 13; 65535] 0
              demo_alloc_nonnull (proj1 Hc)) as [Hin _].
  - apply Permutation_sym.
    exact (Permutation_cons_append [0; 1; 2; 3; 5; 1; 8; 0; 8; 13; 65535] 90).
  - destruct (Hin Hc) as (Hrun & Heq & _). rewrite Hrun, Heq. reflexivity.
Defined.

(** C2, the claim as stated fails: bursting the overfull child "at depth+2"
    gives another trie than the code builds, one that cannot be enumerated;
    the code, which recurses at [depth + 1], keeps the 32 values. *)
Lemma burst_at_depth_plus_two_differs :
  trie__burst_data_node demo_alloc (repeat 1024 32) 0 0
  <> burst_rec_as_specified demo_alloc 5 (repeat 1024 32) 0 0 /\
  enumerate_burst (trie__burst_data_node demo_alloc (repeat 1024 32) 0 0)
  = Done (repeat 1024 32) /\
  enumerate_burst (burst_rec_as_specified demo_alloc 5 (repeat 1024 32) 0 0)
  = Abort UnexpectedNodeType.
Proof.
  assert (enumerate_burst (trie__burst_data_node demo_alloc (repeat 1024 32) 0 0)
          = Done (repeat 1024 32)) as E1 by (vm_compute; reflexivity).
  assert (enumerate_burst
            (burst_rec_as_specified demo_alloc 5 (repeat 1024 32) 0 0)
          = Abort UnexpectedNodeType) as E2 by (vm_compute; reflexivity).
  split; [|split; assumption].
  intros H. rewrite H, E2 in E1. discriminate E1.
Qed.

Lemma burst_recursion_on_overfull_child_witness :
  full_node (repeat 1024 32) /\ demo_alloc 0 <> 0 /\
  exists slab node_to_burst,
    burst_data_loop (repeat 1024 32) 0 31 empty_slab = Done (slab, node_to_burst).
Proof.
  split; [apply full_node_repeat; lia|]. split; [apply demo_alloc_nonnull|].
  destruct (burst_recursion_on_overfull_child demo_alloc 0 (repeat 1024 32) 0)
    as [_ Hdata].
  - unfold TRIE_MAX_DEPTH; lia.
  - apply full_node_repeat; lia.
  - apply demo_alloc_nonnull.
  - destruct Hdata as (slab & ntb & Hloop & _); [unfold TRIE_MAX_DEPTH; lia|].
    exists slab, ntb. exact Hloop.
Defined.

(** C3, the claim as stated fails: after inserting 1 and then 2, slot 30
    holds 2 and slot 31 holds 1, so the occupied slots are not ascending
    with increasing slot index. *)
Lemma sparse_node_not_ascending_by_index :
  reachable demo_alloc (state_after [1; 2]) /\
  exists data,
    base_node (fst (state_after [1; 2])) = DataNode data /\
    nth 30 data 0 = 2 /\ nth 31 data 0 = 1 /\
    ~ nth 30 data 0 <= nth 31 data 0.
Proof.
  split.
  - apply (reachable_run [1; 2]); [|reflexivity].
    repeat (constructor; [lia|]). constructor.
  - exists (repeat 0 30 ++ [2; 1]). split; [reflexivity|].
    cbn. repeat split; lia.
Qed.

Lemma sparse_nodes_sorted_from_last_slot_witness :
  reachable demo_alloc (state_after [1; 2]) /\
  exists occ, repeat 0 30 ++ [2; 1] = repeat 0 (32 - length occ) ++ occ /\
              StronglySorted Z.ge occ.
Proof.
  assert (reachable demo_alloc (state_after [1; 2])) as Hr.
  { apply (reachable_run [1; 2]); [|reflexivity].
    repeat (constructor; [lia|]). constructor. }
  split; [exact Hr|].
  destruct (sparse_nodes_sorted_from_last_slot demo_alloc (state_after [1; 2]) 0
              (repeat 0 30 ++ [2; 1]) Hr) as (occ & Hdata & _ & _ & Hs & _).
  - apply subnode_here.
  - exists occ. split; assumption.
Defined.

Lemma addressing_partitions_value_witness :
  0 <= 0xABCD < 65536 /\
  IDX_FROM_VALUE 0xABCD 0 = 5 /\ IDX_FROM_VALUE 0xABCD TRIE_MAX_DEPTH = 1.
Proof.
  split; [lia|].
  destruct (addressing_partitions_value 0xABCD ltac:(lia))
    as (Hslice & _ & _ & Hlast & _).
  destruct (Hslice 0%nat ltac:(lia)) as (_ & _ & H0).
  split; [rewrite H0 | rewrite Hlast]; reflexivity.
Defined.

(** After 32 insertions of the value 1 the bursts have reached the last
    level: the count node of the keys 0 and 1 holds 32 in bucket 1. *)
Lemma count_node_after_32_ones :
  reachable demo_alloc (state_after (repeat 1 32)) /\
  subnode 0 (base_node (fst (state_after (repeat 1 32)))) 5
    (CountNode [0; 32; 0; 0; 0; 0; 0; 0]).
Proof.
  split.
  - apply (reachable_run (repeat 1 32)); [|vm_compute; reflexivity].
    rewrite Forall_forall. intros x Hx. apply repeat_spec in Hx. lia.
  - vm_compute. do 5 descend_link. apply subnode_here.
Qed.

Lemma count_bucket_ceiling_witness :
  reachable demo_alloc (state_after (repeat 1 32)) /\
  insert_rec demo_alloc 1 (CountNode [0; 32; 0; 0; 0; 0; 0; 0]) 5 1 7
  = Done (CountNode [0; 33; 0; 0; 0; 0; 0; 0], 7%nat).
Proof.
  destruct count_node_after_32_ones as [Hr Hs]. split; [exact Hr|].
  destruct (count_bucket_ceiling demo_alloc _ 5 [0; 32; 0; 0; 0; 0; 0; 0] 1 7 Hr Hs)
    as (_ & _ & E).
  exact E.
Defined.


Lemma example_enumeration_witness :
  demo_alloc 0 <> 0 /\
  stream_text
    (printed (enumerate_after demo_alloc
                [0; 1; 2; 3; 5; 1; 8; 0; 8; 13; 65535; 90] 0))
  = "0 0 1 1 2 3 5 8 8 13 90 65535 "%string.
Proof.
  split; [apply demo_alloc_nonnull|].
  apply (example_enumeration demo_alloc 0), demo_alloc_nonnull.
Defined.

Lemma count_node_uses_two_buckets_witness :
  reachable demo_alloc (state_after (repeat 1 32)) /\
  forall b, (2 <= b <= 7)%nat -> nth b [0; 32; 0; 0; 0; 0; 0; 0] 0 = 0.
Proof.
  destruct count_node_after_32_ones as [Hr Hs]. split; [exact Hr|].
  apply (count_node_uses_two_buckets demo_alloc _ 5 _ Hr Hs).
Defined.

Lemma classification_sound_witness :
  reachable demo_alloc (state_after (repeat 1 32)) /\
  trie__determine_node_type (CountNode [0; 32; 0; 0; 0; 0; 0; 0]) 5
  = NODE_TYPE_COUNT.
Proof.
  destruct count_node_after_32_ones as [Hr Hs]. split; [exact Hr|].
  destruct (classification_sound demo_alloc _ 5 _ Hr Hs) as [E _].
  exact E.
Defined.

Lemma burst_placement_finds_empty_slot_witness :
  full_node (repeat 1024 32) /\
  burst_data_loop (repeat 1024 32) 0 31 empty_slab
  = redistribute 0 (rev (repeat 1024 32)) empty_slab.
Proof.
  split; [apply full_node_repeat; lia|].
  destruct (burst_placement_finds_empty_slot 0 (repeat 1024 32) 5) as [E _].
  - unfold TRIE_MAX_DEPTH; lia.
  - apply full_node_repeat; lia.
  - lia.
  - exact E.
Defined.

(** The remaining scenarios of [trie.unittest.c], run on the embedding. *)

Example test_simple_burst :
  stream_text
    (printed (enumerate_after demo_alloc
                [1; 2; 3; 4; 5; 6; 7; 8; 9; 10; 11; 12; 13; 14; 15; 16; 17; 18;
                 19; 20; 21; 22; 23; 24; 65535; 25; 26; 27; 28; 29; 30; 31; 32]
                0))
  = ("1 2 3 4 5 6 7 8 9 10 11 12 13 14 15 16 17 18 19 20 21 22 23 24 "
     ++ "25 26 27 28 29 30 31 32 65535 ")%string.
Proof. vm_compute. reflexivity. Qed.

Example test_simple_counting_bucket :
  enumerate_after demo_alloc (repeat 1 40) 0 = Done (repeat 1 40).
Proof. vm_compute. reflexivity. Qed.

Example test_low_number_to_same_bucket_after_burst :
  stream_text
    (printed (enumerate_after demo_alloc
                [1; 2; 3; 4; 5; 1; 2; 3; 4; 5; 1; 2; 3; 4; 5; 1; 2; 3; 4; 5;
                 1; 2; 3; 4; 5; 65534; 65533; 65534; 65533; 65535; 65535;
                 65535; 65535; 1; 2]
                0))
  = ("1 1 1 1 1 1 2 2 2 2 2 2 3 3 3 3 3 4 4 4 4 4 5 5 5 5 5 "
     ++ "65533 65533 65534 65534 65535 65535 65535 65535 ")%string.
Proof. vm_compute. reflexivity. Qed.
